(** * dbuff: bounded byte-buffer cursors (src/lib/util/dbuff.h)

    A shallow embedding of the cursor structure [fr_dbuff_t], of the macros
    that derive child cursors and of the copy-in routine, followed by the
    properties of the written specification checked against them.

    Conventions of the embedding.
    - Pointers are integer addresses ([Z]); pointer arithmetic and pointer
      comparison are arithmetic and comparison on addresses.  A null
      [parent] pointer is [None].
    - [size_t] and [ssize_t] are the 64-bit types of an LP64 target; every
      conversion to one of them is written out ([to_size_t], [to_ssize_t]).
    - The cursor structures live in a store indexed by their address, since
      a child refers to its parent by pointer and a write through the child
      mutates the parent in place.  The bytes live in a second map. *)

From Stdlib Require Import ZArith Lia Bool List.
From stdpp Require Import base option list gmap.

Local Open Scope Z_scope.

(** ** Machine integers *)

Definition SIZE_MOD : Z := 2 ^ 64.
Definition SSIZE_MAX : Z := 2 ^ 63 - 1.

(** Conversion of an integer value to [size_t] (reduction modulo 2^64). *)
Definition to_size_t (z : Z) : Z := z mod SIZE_MOD.

(** Conversion of an integer value to [ssize_t] (two's complement). *)
Definition to_ssize_t (z : Z) : Z := (z + 2 ^ 63) mod SIZE_MOD - 2 ^ 63.

(** ** The cursor structure *)

(** [struct fr_dbuff_s].  The unions of a mutable and an immutable pointer
    are one address each. *)
Record fr_dbuff_t : Type := mk_dbuff {
  start : Z;               (* start pointer *)
  end_ : Z;                (* end pointer *)
  p : Z;                   (* position pointer *)
  is_const : bool;         (* the buffer this dbuff wraps is const *)
  parent : option Z        (* fr_dbuff_t *parent *)
}.

(** The program state: the live [fr_dbuff_t] objects by address, and the
    bytes of memory by address. *)
Record state : Type := mk_state {
  dbuffs : gmap Z fr_dbuff_t;
  mem : gmap Z Byte.byte
}.

(** [*dbuff = d]: store a structure at an address. *)
Definition set_dbuff (st : state) (dbuff : Z) (d : fr_dbuff_t) : state :=
  {| dbuffs := <[dbuff := d]> (dbuffs st); mem := mem st |}.

(** ** Outcomes *)

(** What a call can end in. *)
Inductive result (A : Type) : Type :=
| Ok (a : A)          (* the call returned *)
| AssertFail          (* an fr_assert did not hold *)
| BadPointer          (* a pointer that is not a live object was used *)
| OutOfFuel.          (* the recursion was cut off *)

Arguments Ok {A} a.
Arguments AssertFail {A}.
Arguments BadPointer {A}.
Arguments OutOfFuel {A}.

(** The error monad of outcomes, with stdpp's notation [x ← r; k]. *)
#[global] Instance result_ret : MRet result := fun A a => Ok a.

#[global] Instance result_bind : MBind result := fun A B k r =>
  match r with
  | Ok a => k a
  | AssertFail => AssertFail
  | BadPointer => BadPointer
  | OutOfFuel => OutOfFuel
  end.

(** Dereference a [fr_dbuff_t *]. *)
Definition deref (st : state) (dbuff : Z) : result fr_dbuff_t :=
  match dbuffs st !! dbuff with
  | Some d => Ok d
  | None => BadPointer
  end.

(** Modelled from the spec: [fr_assert], which is defined outside this
    header.  The specification treats a write through a read-only cursor as
    misuse that is handled fail-fast by the assertion. *)
Definition fr_assert (b : bool) : result unit :=
  if b then Ok tt else AssertFail.

(** ** Utility macros *)

(** [FR_DBUFF_NO_ADVANCE(_dbuff)]: a compound literal holding a copy of
    [*_dbuff]; [lit] is the address of the literal. *)
Definition FR_DBUFF_NO_ADVANCE (st : state) (dbuff lit : Z) : result (state * Z) :=
  d ← deref st dbuff;
  Ok (set_dbuff st lit d, lit).

(** The initialiser of the compound literal of [FR_DBUFF_RESERVE]: [dbuff]
    is the pointer [_dbuff] and [d] the structure it points at.  The first
    operand of both conditions is the pointer itself converted to [size_t],
    as the macro writes it.  The pointer [end - reserve] is computed on
    unbounded addresses: this is the code's pointer as long as [reserve]
    does not exceed the numeric value of [end]; for a larger reserve the
    subtraction of the code wraps around, and no property below is stated
    for such a reserve. *)
Definition reserve_init (dbuff : Z) (d : fr_dbuff_t) (reserve : Z) : fr_dbuff_t :=
  {| start := start d;
     end_ := if (to_size_t dbuff >? reserve) && (end_ d - reserve >=? start d)
             then end_ d - reserve
             else start d;
     p := if (to_size_t dbuff >? reserve) && (end_ d - reserve >=? p d)
          then p d
          else end_ d - reserve;
     is_const := is_const d;
     parent := Some dbuff |}.

(** [FR_DBUFF_RESERVE(_dbuff, _reserve)]: the address of a compound literal
    ([lit]) initialised from [*_dbuff]. *)
Definition FR_DBUFF_RESERVE (st : state) (dbuff reserve lit : Z) : result (state * Z) :=
  d ← deref st dbuff;
  Ok (set_dbuff st lit (reserve_init dbuff d reserve), lit).

(** [fr_dbuff_freespace]: [end - p], returned as a [size_t]. *)
Definition fr_dbuff_freespace (d : fr_dbuff_t) : Z := to_size_t (end_ d - p d).

(** [fr_dbuff_used]: [p - start]. *)
Definition fr_dbuff_used (d : fr_dbuff_t) : Z := to_size_t (p d - start d).

(** [fr_dbuff_len]: [end - start]. *)
Definition fr_dbuff_len (d : fr_dbuff_t) : Z := to_size_t (end_ d - start d).

(** [FR_DBUFF_MAX(_dbuff, _max)]: a reservation of [freespace - _max] bytes
    when the free space exceeds [_max], and [_dbuff] itself otherwise. *)
Definition FR_DBUFF_MAX (st : state) (dbuff max lit : Z) : result (state * Z) :=
  d ← deref st dbuff;
  if fr_dbuff_freespace d >? max
  then FR_DBUFF_RESERVE st dbuff (to_size_t (fr_dbuff_freespace d - max)) lit
  else Ok (st, dbuff).

(** ** Initialisation *)

(** [_fr_dbuff_init]: sets [start], [p], [end] and [is_const]; the [parent]
    field of [*out] is not assigned. *)
Definition _fr_dbuff_init (st : state) (out start' end' : Z) (is_const' : bool)
  : result state :=
  d ← deref st out;
  let end'' := if end' <? start' then start' else end' in
  Ok (set_dbuff st out
        {| start := start'; end_ := end''; p := start';
           is_const := is_const'; parent := parent d |}).

(** The second argument of [fr_dbuff_init]: a length ([size_t]) or an end
    pointer, told apart by [_Generic]. *)
Inductive len_or_end : Type :=
| ByLen (len : Z)
| ByEnd (e : Z).

(** [fr_dbuff_init(_out, _start, _len_or_end)]; [start_const] says whether
    [_start] has type [uint8_t const *].  The pointer [start + len] is
    computed on unbounded addresses: this is the code's pointer for the
    lengths of regions that exist, which the properties below are stated
    for; for a length that leads past the last address the addition of the
    code wraps around. *)
Definition fr_dbuff_init (st : state) (out start' : Z) (start_const : bool)
  (le : len_or_end) : result state :=
  _fr_dbuff_init st out start'
    (match le with
     | ByLen len => start' + to_size_t len
     | ByEnd e => e
     end)
    start_const.

(** ** Position manipulation *)

(** [fr_dbuff_start]: [return dbuff->p = dbuff->start]. *)
Definition fr_dbuff_start (st : state) (dbuff : Z) : result (state * Z) :=
  d ← deref st dbuff;
  Ok (set_dbuff st dbuff
        {| start := start d; end_ := end_ d; p := start d;
           is_const := is_const d; parent := parent d |},
      start d).

(** [fr_dbuff_end]: [return dbuff->p = dbuff->end]. *)
Definition fr_dbuff_end (st : state) (dbuff : Z) : result (state * Z) :=
  d ← deref st dbuff;
  Ok (set_dbuff st dbuff
        {| start := start d; end_ := end_ d; p := end_ d;
           is_const := is_const d; parent := parent d |},
      end_ d).

(** ** Copying data in *)

(** The bytes [src] stored at consecutive addresses from [dst]. *)
Fixpoint memcpy_bytes (m : gmap Z Byte.byte) (dst : Z) (src : list Byte.byte)
  : gmap Z Byte.byte :=
  match src with
  | [] => m
  | b :: src' => memcpy_bytes (<[dst := b]> m) (dst + 1) src'
  end.

(** [memcpy(dst, in, n)], where the readable source range holds the bytes
    [src]: reading [n] bytes from a shorter range is not defined. *)
Definition memcpy (m : gmap Z Byte.byte) (dst : Z) (src : list Byte.byte) (n : Z)
  : result (gmap Z Byte.byte) :=
  if n <=? Z.of_nat (length src)
  then Ok (memcpy_bytes m dst (take (Z.to_nat n) src))
  else BadPointer.

(** [dbuff->p += inlen]. *)
Definition advance (inlen : Z) (d : fr_dbuff_t) : fr_dbuff_t :=
  {| start := start d; end_ := end_ d; p := p d + inlen;
     is_const := is_const d; parent := parent d |}.

(** [fr_dbuff_memcpy_in].  The recursion follows the [parent] pointers, which
    nothing in the structure keeps from looping, hence the fuel.  The value of
    the conditional expression in the last line has type [size_t] and is
    converted to the [ssize_t] return type. *)
Fixpoint fr_dbuff_memcpy_in (fuel : nat) (st : state) (dbuff : Z)
  (in_ : list Byte.byte) (inlen : Z) : result (state * Z) :=
  match fuel with
  | O => OutOfFuel
  | S fuel' =>
    d ← deref st dbuff;
    let freespace := fr_dbuff_freespace d in
    _ ← fr_assert (negb (is_const d));
    if inlen >? freespace
    then Ok (st, to_ssize_t (to_size_t (- to_size_t (inlen - freespace))))
    else
      m' ← memcpy (mem st) (p d) in_ inlen;
      let st' := {| dbuffs := <[dbuff := advance inlen d]> (dbuffs st);
                    mem := m' |} in
      match parent d with
      | Some q =>
        '(st'', r) ← fr_dbuff_memcpy_in fuel' st' q in_ inlen;
        Ok (st'', to_ssize_t (to_size_t r))
      | None => Ok (st', to_ssize_t (to_size_t inlen))
      end
  end.

(** How a macro that may [return] from the enclosing function ends: control
    falls through to the next statement, or the enclosing function returns
    the given [ssize_t]. *)
Inductive control : Type :=
| Fallthrough
| Return (v : Z).

(** [FR_DBUFF_MEMCPY_IN(_dbuff, _in, _inlen)].  [_slen] is declared
    [size_t]: the result of the call is converted to it before the test. *)
Definition FR_DBUFF_MEMCPY_IN (fuel : nat) (st : state) (dbuff : Z)
  (in_ : list Byte.byte) (inlen : Z) : result (state * control) :=
  '(st', r) ← fr_dbuff_memcpy_in fuel st dbuff in_ inlen;
  let _slen := to_size_t r in
  if _slen <? 0 then Ok (st', Return (to_ssize_t _slen)) else Ok (st', Fallthrough).

(** [FR_DBUFF_BYTES_IN(_dbuff, ...)]: the bytes of the argument list, and
    their number as the length. *)
Definition FR_DBUFF_BYTES_IN (fuel : nat) (st : state) (dbuff : Z)
  (bytes : list Byte.byte) : result (state * control) :=
  FR_DBUFF_MEMCPY_IN fuel st dbuff bytes (Z.of_nat (length bytes)).

(** The body of a function that uses the macro: the macro, then the
    statements after it. *)
Definition stmt : Type := state -> result (state * control).

Definition seq (s1 s2 : stmt) : stmt :=
  fun st =>
    '(st', c) ← s1 st;
    match c with
    | Fallthrough => s2 st'
    | Return v => Ok (st', Return v)
    end.

(** ** The free-space check *)

(** [FR_DBUFF_CHECK_FREESPACE(_dbuff, _need)]: returns from the enclosing
    function with [-(_need - _freespace)] when [_need] exceeds the free
    space, and falls through otherwise.  [_need] is a [size_t] here (any
    narrower integer argument is converted to it by the comparison with the
    [size_t] local [_freespace]); the value returned is converted to the
    [ssize_t] the enclosing function returns. *)
Definition FR_DBUFF_CHECK_FREESPACE (st : state) (dbuff need : Z) : result control :=
  d ← deref st dbuff;
  let _freespace := fr_dbuff_freespace d in
  if need >? _freespace
  then Ok (Return (to_ssize_t (to_size_t (- to_size_t (need - _freespace)))))
  else Ok Fallthrough.

(** ** Shapes of the parent chain *)

(** [chain m a l]: following the [parent] pointers from the cursor at [a]
    visits exactly the addresses [l], in this order, and ends at a cursor
    whose [parent] is null. *)
Fixpoint chain (m : gmap Z fr_dbuff_t) (a : Z) (l : list Z) : bool :=
  match m !! a with
  | None => false
  | Some d =>
    match l with
    | [] => bool_decide (parent d = None)
    | q :: l' => bool_decide (parent d = Some q) && chain m q l'
    end
  end.

(** The cursor at [a] exists and is not const. *)
Definition mutable (m : gmap Z fr_dbuff_t) (a : Z) : bool :=
  match m !! a with
  | Some d => negb (is_const d)
  | None => false
  end.

(** [start <= p <= end]. *)
Definition in_window (d : fr_dbuff_t) : bool :=
  (start d <=? p d) && (p d <=? end_ d).

(** [in_window], and the length of the window is a valid object size (it
    fits [ssize_t], so no difference of two of its pointers wraps). *)
Definition dbuff_ok (d : fr_dbuff_t) : bool :=
  in_window d && (end_ d - start d <=? SSIZE_MAX).

(** What ties a derived cursor to its parent: the child does not reach past
    the parent's end; its position is the parent's, or the child is full
    (its position was clamped to its end when it was derived); a const
    parent has const children. *)
Definition link_ok (child par : fr_dbuff_t) : bool :=
  (end_ child <=? end_ par)
  && ((p child =? p par) || (p child =? end_ child))
  && implb (is_const par) (is_const child).

(** The invariants of the whole chain from [a] up to the root. *)
Fixpoint chain_inv (m : gmap Z fr_dbuff_t) (a : Z) (l : list Z) : bool :=
  match m !! a with
  | None => false
  | Some d =>
    dbuff_ok d &&
    match l with
    | [] => bool_decide (parent d = None)
    | q :: l' =>
      bool_decide (parent d = Some q)
      && match m !! q with
         | Some dq => link_ok d dq
         | None => false
         end
      && chain_inv m q l'
    end
  end.

(** Every cursor of the list advanced by [inlen]. *)
Fixpoint advance_all (inlen : Z) (l : list Z) (m : gmap Z fr_dbuff_t)
  : gmap Z fr_dbuff_t :=
  match l with
  | [] => m
  | a :: l' => advance_all inlen l' (alter (advance inlen) a m)
  end.

(** The child made by a reservation stands where its parent stands and ends
    [reserve] bytes before the end of its parent. *)
Definition reserved (reserve : Z) (m : gmap Z fr_dbuff_t) (lit dbuff : Z)
  (l : list Z) : Prop :=
  chain_inv m lit (dbuff :: l) = true
  /\ exists dc dp, m !! lit = Some dc /\ m !! dbuff = Some dp
       /\ p dc = p dp /\ end_ dc = end_ dp - reserve.

(** ** Sequences of operations *)

(** Every cursor of the store satisfies [start <= p <= end]. *)
Definition store_in_window (m : gmap Z fr_dbuff_t) : Prop :=
  map_Forall (fun _ d => in_window d = true) m.

(** The operations that move a position. *)
Inductive op : Type :=
| OpWrite (dbuff : Z) (in_ : list Byte.byte) (inlen : Z)
| OpSeekStart (dbuff : Z)
| OpSeekEnd (dbuff : Z).

Definition run_op (fuel : nat) (st : state) (o : op) : result state :=
  match o with
  | OpWrite dbuff in_ inlen =>
    '(st', _) ← fr_dbuff_memcpy_in fuel st dbuff in_ (to_size_t inlen); Ok st'
  | OpSeekStart dbuff => '(st', _) ← fr_dbuff_start st dbuff; Ok st'
  | OpSeekEnd dbuff => '(st', _) ← fr_dbuff_end st dbuff; Ok st'
  end.

Fixpoint run_ops (fuel : nat) (st : state) (os : list op) : result state :=
  match os with
  | [] => Ok st
  | o :: os' => st' ← run_op fuel st o; run_ops fuel st' os'
  end.

(** ** Concrete states used by the examples *)

(** An uninitialised [fr_dbuff_t] object. *)
Definition blank : fr_dbuff_t := mk_dbuff 0 0 0 false None.

(** A region of ten bytes [0xFF] at address 1000. *)
Definition region10 : gmap Z Byte.byte :=
  memcpy_bytes ∅ 1000 (replicate 10 Byte.xff).

(** One [fr_dbuff_t] object at address 5000, not yet initialised. *)
Definition st_blank : state :=
  {| dbuffs := {[ 5000 := blank ]}; mem := region10 |}.

(** The root cursor at address 5000 over the ten bytes at 1000. *)
Definition st_root : state :=
  {| dbuffs := {[ 5000 := mk_dbuff 1000 1010 1000 false None ]};
     mem := region10 |}.

(** The same root cursor after all ten bytes were used. *)
Definition st_full : state :=
  {| dbuffs := {[ 5000 := mk_dbuff 1000 1010 1010 false None ]};
     mem := region10 |}.

(** The root cursor after four bytes were used, and a child that reserves
    two bytes. *)
Definition st_derived : state :=
  {| dbuffs := {[ 5000 := mk_dbuff 1000 1010 1004 false None;
                  6000 := mk_dbuff 1000 1008 1004 false (Some 5000) ]};
     mem := region10 |}.

(** The root cursor, full, and a child that reserves two bytes and is full
    as well. *)
Definition st_full_derived : state :=
  {| dbuffs := {[ 5000 := mk_dbuff 1000 1010 1010 false None;
                  6000 := mk_dbuff 1000 1008 1008 false (Some 5000) ]};
     mem := region10 |}.

(** Scenario 5 of the specification: the root cursor over ten bytes at
    5000, a child at 6000 that reserves two bytes, and a child of that child
    at 7000 limited to four bytes. *)
Definition st_nested : state :=
  {| dbuffs := {[ 5000 := mk_dbuff 1000 1010 1000 false None;
                  6000 := mk_dbuff 1000 1008 1000 false (Some 5000);
                  7000 := mk_dbuff 1000 1004 1000 false (Some 6000) ]};
     mem := region10 |}.

(** The state [st_derived] with a copy of the child at 7000, and the state
    after three bytes were written through the copy. *)
Definition st_copied : state :=
  set_dbuff st_derived 7000 (mk_dbuff 1000 1008 1004 false (Some 5000)).

Definition st_copy_written : state :=
  {| dbuffs := {[ 5000 := mk_dbuff 1000 1010 1007 false None;
                  6000 := mk_dbuff 1000 1008 1004 false (Some 5000);
                  7000 := mk_dbuff 1000 1008 1007 false (Some 5000) ]};
     mem := memcpy_bytes region10 1004 [Byte.x0a; Byte.x0b; Byte.x0c] |}.

(** Three bytes written through the root of [st_derived]: the root moves to
    1007, the child stays at 1004. *)
Definition st_parent_written : state :=
  {| dbuffs := {[ 5000 := mk_dbuff 1000 1010 1007 false None;
                  6000 := mk_dbuff 1000 1008 1004 false (Some 5000) ]};
     mem := memcpy_bytes region10 1004 [Byte.x0a; Byte.x0b; Byte.x0c] |}.

(** The child of [st_derived] after the root alone was advanced to 1007:
    the child has four bytes of room, the root three. *)
Definition st_desync : state :=
  {| dbuffs := {[ 5000 := mk_dbuff 1000 1010 1007 false None;
                  6000 := mk_dbuff 1000 1008 1004 false (Some 5000) ]};
     mem := region10 |}.

(** Scenario 3 of the specification with one write too many: four bytes
    reserved in the root cursor, then writes of 4, 5 and 2 bytes through the
    child; the second falls short. *)
Definition st_reserved4 : state :=
  set_dbuff st_root 6000 (reserve_init 5000 (mk_dbuff 1000 1010 1000 false None) 4).

Definition st_reserved4_written : state :=
  {| dbuffs := {[ 5000 := mk_dbuff 1000 1010 1006 false None;
                  6000 := mk_dbuff 1000 1006 1006 false (Some 5000) ]};
     mem := memcpy_bytes region10 1000 (replicate 6 Byte.xaa) |}.

(** A const root cursor over the ten bytes at 1000. *)
Definition st_const : state :=
  {| dbuffs := {[ 5000 := mk_dbuff 1000 1010 1000 true None ]}; mem := region10 |}.

(** The root cursor after three bytes were written, and then moved to its
    end. *)
Definition st_ops_done : state :=
  {| dbuffs := {[ 5000 := mk_dbuff 1000 1010 1010 false None ]};
     mem := memcpy_bytes region10 1000 [Byte.x01; Byte.x02; Byte.x03] |}.

(** ** Proof automation *)

(** Split boolean conjunctions in the hypotheses and turn the comparisons
    into propositions. *)
Ltac bools :=
  repeat match goal with
  | H : _ && _ = true |- _ => apply andb_prop in H; destruct H
  | H : (_ <=? _) = true |- _ => apply Z.leb_le in H
  | H : (_ <? _) = true |- _ => apply Z.ltb_lt in H
  | H : (_ =? _) = true |- _ => apply Z.eqb_eq in H
  | H : (_ >? _) = true |- _ => apply Z.gtb_lt in H
  | H : (_ >=? _) = true |- _ => rewrite Z.geb_leb in H
  | H : (_ >? _) = false |- _ => rewrite Z.gtb_ltb in H
  | H : (_ <? _) = false |- _ => apply Z.ltb_ge in H
  | H : (_ <=? _) = false |- _ => apply Z.leb_gt in H
  | H : bool_decide _ = true |- _ => apply bool_decide_eq_true in H
  | H : negb _ = true |- _ => apply negb_true_iff in H
  end.

(** * Properties *)

(** ** Integer conversions *)

Lemma to_size_t_range (z : Z) : 0 <= to_size_t z < SIZE_MOD.
Proof. unfold to_size_t, SIZE_MOD. apply Z.mod_pos_bound. lia. Qed.

Lemma to_size_t_id (z : Z) : 0 <= z < SIZE_MOD -> to_size_t z = z.
Proof. intros H. unfold to_size_t. apply Z.mod_small. exact H. Qed.

Lemma to_ssize_t_range (z : Z) : - 2 ^ 63 <= to_ssize_t z <= SSIZE_MAX.
Proof.
  unfold to_ssize_t, SSIZE_MAX, SIZE_MOD.
  pose proof (Z.mod_pos_bound (z + 2 ^ 63) (2 ^ 64)). lia.
Qed.

Lemma to_ssize_t_id (z : Z) : - 2 ^ 63 <= z <= SSIZE_MAX -> to_ssize_t z = z.
Proof.
  unfold to_ssize_t, SSIZE_MAX, SIZE_MOD. intros H.
  rewrite Z.mod_small by lia. lia.
Qed.

(** Converting an [ssize_t] to [size_t] and back gives the value again. *)
Lemma to_ssize_t_to_size_t (z : Z) : to_ssize_t (to_size_t z) = to_ssize_t z.
Proof.
  unfold to_ssize_t, to_size_t, SIZE_MOD.
  rewrite Zplus_mod_idemp_l. reflexivity.
Qed.

(** The value returned on a shortfall, [-(inlen - freespace)] computed in
    [size_t] and returned as [ssize_t]. *)
Lemma shortfall_value (inlen freespace : Z) :
  to_ssize_t (to_size_t (- to_size_t (inlen - freespace)))
  = to_ssize_t (freespace - inlen).
Proof.
  rewrite to_ssize_t_to_size_t.
  unfold to_ssize_t, to_size_t, SIZE_MOD. f_equal.
  replace (- ((inlen - freespace) mod 2 ^ 64) + 2 ^ 63)
    with (2 ^ 63 - (inlen - freespace) mod 2 ^ 64) by lia.
  rewrite Zminus_mod_idemp_r. f_equal. lia.
Qed.

Lemma shortfall_negative (inlen freespace : Z) :
  freespace < inlen -> inlen - freespace <= 2 ^ 63 ->
  to_ssize_t (freespace - inlen) = freespace - inlen.
Proof. intros H1 H2. apply to_ssize_t_id. unfold SSIZE_MAX. lia. Qed.


(** ** A write that does not fit *)

(** One call of [fr_dbuff_memcpy_in] on a cursor that is too full: the state
    is returned as it was, whatever the source and the parents. *)
Lemma memcpy_in_too_long (fuel : nat) (st : state) (dbuff : Z) (d : fr_dbuff_t)
  (in_ : list Byte.byte) (inlen : Z) :
  dbuffs st !! dbuff = Some d ->
  is_const d = false ->
  inlen > fr_dbuff_freespace d ->
  fr_dbuff_memcpy_in (S fuel) st dbuff in_ inlen
  = Ok (st, to_ssize_t (fr_dbuff_freespace d - inlen)).
Proof.
  intros Hd Hc Hlen. cbn [fr_dbuff_memcpy_in]. unfold deref. rewrite Hd. cbn.
  rewrite Hc. cbn.
  replace (inlen >? fr_dbuff_freespace d) with true
    by (symmetry; apply Z.gtb_lt; lia).
  rewrite shortfall_value. reflexivity.
Qed.

(** C1.  A write of [inlen] bytes through a cursor that is not const, with
    [inlen > freespace] and [inlen] a size that a byte range can have
    ([inlen <= SSIZE_MAX]), returns the negative number [freespace - inlen]
    and leaves the state as it was: no byte of memory and no cursor, hence
    no position of the cursor or of an ancestor, differs. *)
Theorem memcpy_in_shortfall (fuel : nat) (st : state) (dbuff : Z) (d : fr_dbuff_t)
  (in_ : list Byte.byte) (inlen : Z) :
  dbuffs st !! dbuff = Some d ->
  is_const d = false ->
  inlen > fr_dbuff_freespace d ->
  inlen <= SSIZE_MAX ->
  fr_dbuff_memcpy_in (S fuel) st dbuff in_ inlen
  = Ok (st, fr_dbuff_freespace d - inlen)
  /\ fr_dbuff_freespace d - inlen < 0.
Proof.
  intros Hd Hc Hlen Hmax.
  pose proof (to_size_t_range (end_ d - p d)) as Hfs.
  fold (fr_dbuff_freespace d) in Hfs.
  split; [ | lia ].
  rewrite (memcpy_in_too_long fuel st dbuff d in_ inlen Hd Hc Hlen).
  rewrite shortfall_negative by (unfold SSIZE_MAX in Hmax; lia).
  reflexivity.
Qed.

(** Scenario 2 of the specification: five bytes offered to a cursor over
    eight bytes of which five are used.  The write returns -2 and changes
    nothing. *)
Lemma memcpy_in_shortfall_witness :
  let root := mk_dbuff 1000 1008 1005 false None in
  let st := {| dbuffs := {[ 5000 := root ]}; mem := region10 |} in
  let five := replicate 5 Byte.x00 in
  fr_dbuff_memcpy_in 1 st 5000 five 5 = Ok (st, fr_dbuff_freespace root - 5)
  /\ fr_dbuff_freespace root - 5 < 0.
Proof.
  intros root st five.
  apply (memcpy_in_shortfall 0 st 5000 root five 5).
  - reflexivity.
  - reflexivity.
  - reflexivity.
  - vm_compute. discriminate.
Defined.

(** ** The reservation view *)

(** A reservation that fits the window, made through a pointer whose numeric
    value exceeds the reserve: the child keeps [start], ends [reserve] bytes
    before the parent's end, and stands at the parent's position or, when
    that lies beyond the new end, at the new end. *)
Lemma reserve_init_fits (dbuff : Z) (d : fr_dbuff_t) (reserve : Z) :
  reserve < to_size_t dbuff ->
  0 <= reserve <= end_ d - start d ->
  reserve_init dbuff d reserve
  = {| start := start d; end_ := end_ d - reserve;
       p := Z.min (p d) (end_ d - reserve);
       is_const := is_const d; parent := Some dbuff |}.
Proof.
  intros Hptr Hres. unfold reserve_init.
  replace (to_size_t dbuff >? reserve) with true by (symmetry; apply Z.gtb_lt; lia).
  replace (end_ d - reserve >=? start d) with true
    by (symmetry; rewrite Z.geb_leb; apply Z.leb_le; lia).
  cbn [andb]. f_equal.
  destruct (end_ d - reserve >=? p d) eqn:E; rewrite Z.geb_leb in E.
  - apply Z.leb_le in E. lia.
  - apply Z.leb_gt in E. lia.
Qed.

(** The same reservation keeps [start <= p <= end] and a valid length. *)
Lemma reserve_init_ok (dbuff : Z) (d : fr_dbuff_t) (reserve : Z) :
  reserve < to_size_t dbuff ->
  0 <= reserve <= end_ d - start d ->
  dbuff_ok d = true ->
  dbuff_ok (reserve_init dbuff d reserve) = true.
Proof.
  intros Hptr Hres Hok. rewrite reserve_init_fits by assumption.
  unfold dbuff_ok, in_window in *. cbn. bools.
  repeat (apply andb_true_intro; split); apply Z.leb_le; lia.
Qed.

(** X20.  A reservation of more bytes than the window has, but no more
    than the numeric value of [end] (so that [end - reserve] is an address
    and the subtraction of the code does not wrap around): [end] is clamped
    to [start], but [p] is set to [end - reserve], which lies before
    [start].  The child's free space is then the excess of the reserve over
    the length, not zero. *)
Lemma reserve_init_exceeds (dbuff : Z) (d : fr_dbuff_t) (reserve : Z) :
  in_window d = true ->
  end_ d < SIZE_MOD ->
  end_ d - start d < reserve ->
  reserve <= end_ d ->
  start (reserve_init dbuff d reserve) = start d
  /\ end_ (reserve_init dbuff d reserve) = start d
  /\ p (reserve_init dbuff d reserve) = end_ d - reserve
  /\ 0 <= p (reserve_init dbuff d reserve) < start d
  /\ fr_dbuff_freespace (reserve_init dbuff d reserve)
     = reserve - (end_ d - start d)
  /\ 0 < fr_dbuff_freespace (reserve_init dbuff d reserve).
Proof.
  intros Hw Hptr Hres Hbound. unfold in_window in Hw. bools.
  assert (E1 : (end_ d - reserve >=? start d) = false)
    by (rewrite Z.geb_leb; apply Z.leb_gt; lia).
  assert (E2 : (end_ d - reserve >=? p d) = false)
    by (rewrite Z.geb_leb; apply Z.leb_gt; lia).
  unfold fr_dbuff_freespace, reserve_init. cbn.
  rewrite E1, E2, !andb_false_r.
  replace (start d - (end_ d - reserve)) with (reserve - (end_ d - start d)) by lia.
  rewrite to_size_t_id by lia.
  repeat split; lia.
Qed.

(** C4 fails on the code.  The root cursor over ten bytes, reserved for
    eleven: the child's [end] is clamped to [start] as the claim says, but
    its [p] is 999, one byte before its [start] and its [end], where the
    claim has [p] clamped to the child's [end] (1000). *)
Theorem FR_DBUFF_RESERVE_p_before_start :
  let root := mk_dbuff 1000 1010 1000 false None in
  let child := reserve_init 5000 root 11 in
  FR_DBUFF_RESERVE st_root 5000 11 6000 = Ok (set_dbuff st_root 6000 child, 6000)
  /\ child = mk_dbuff 1000 1000 999 false (Some 5000)
  /\ p child <> Z.min (p root) (end_ child)
  /\ p child < start child.
Proof. vm_compute. repeat split; discriminate. Qed.

(** C5 fails on the code.  The length of the root cursor is 10; the child
    of a reservation of 11 bytes has one byte of free space, and a write of
    one byte through it succeeds and stores the byte at address 999, before
    the region, as well as at 1000. *)
Theorem FR_DBUFF_RESERVE_exceeding_has_freespace :
  let root := mk_dbuff 1000 1010 1000 false None in
  fr_dbuff_len root = 10
  /\ fr_dbuff_freespace (reserve_init 5000 root 11) = 1
  /\ ('(st1, child) ← FR_DBUFF_RESERVE st_root 5000 11 6000;
      '(st2, r) ← fr_dbuff_memcpy_in 2 st1 child [Byte.xaa] 1;
      Ok (r, mem st_root !! 999, mem st2 !! 999, mem st2 !! 1000))
     = Ok (1, None, Some Byte.xaa, Some Byte.xaa).
Proof. vm_compute. repeat split. Qed.

(** C3 fails on the code.  A root cursor initialised over ten bytes and
    then reserved for eleven gives a child with [p < start]. *)
Theorem FR_DBUFF_RESERVE_breaks_window :
  (st1 ← fr_dbuff_init st_blank 5000 1000 false (ByLen 10);
   '(st2, child) ← FR_DBUFF_RESERVE st1 5000 11 6000;
   Ok (dbuffs st1 !! 5000, dbuffs st2 !! child))
  = Ok (Some (mk_dbuff 1000 1010 1000 false None),
        Some (mk_dbuff 1000 1000 999 false (Some 5000)))
  /\ in_window (mk_dbuff 1000 1000 999 false (Some 5000)) = false.
Proof. vm_compute. split; reflexivity. Qed.

(** ** The macro that returns on a shortfall *)

(** The values [fr_dbuff_memcpy_in] returns are [ssize_t] values. *)
Lemma memcpy_in_ret_range (fuel : nat) (st st' : state) (dbuff : Z)
  (in_ : list Byte.byte) (inlen r : Z) :
  fr_dbuff_memcpy_in fuel st dbuff in_ inlen = Ok (st', r) ->
  - 2 ^ 63 <= r <= SSIZE_MAX.
Proof.
  destruct fuel as [ | fuel]; [ discriminate | ].
  cbn [fr_dbuff_memcpy_in]. unfold deref.
  destruct (dbuffs st !! dbuff) as [d | ]; [ cbn | discriminate ].
  destruct (is_const d); [ discriminate | cbn ].
  destruct (inlen >? fr_dbuff_freespace d).
  - intros [= _ <-]. apply to_ssize_t_range.
  - destruct (memcpy (mem st) (p d) in_ inlen) as [m' | | | ]; try discriminate.
    cbn. destruct (parent d) as [q | ].
    + destruct (fr_dbuff_memcpy_in fuel _ q in_ inlen) as [[st'' r'] | | | ];
        try discriminate.
      cbn. intros [= _ <-]. apply to_ssize_t_range.
    + intros [= _ <-]. apply to_ssize_t_range.
Qed.

(** X23.  The test [_slen < 0] is made on a [size_t] and never holds: whatever
    the call returns, the macro falls through. *)
Lemma FR_DBUFF_MEMCPY_IN_falls_through (fuel : nat) (st : state) (dbuff : Z)
  (in_ : list Byte.byte) (inlen : Z) :
  FR_DBUFF_MEMCPY_IN fuel st dbuff in_ inlen
  = ('(st', _) ← fr_dbuff_memcpy_in fuel st dbuff in_ inlen; Ok (st', Fallthrough)).
Proof.
  unfold FR_DBUFF_MEMCPY_IN.
  destruct (fr_dbuff_memcpy_in fuel st dbuff in_ inlen) as [[st' r] | | | ];
    try reflexivity.
  cbn. pose proof (to_size_t_range r) as Hr.
  replace (to_size_t r <? 0) with false by (symmetry; apply Z.ltb_ge; lia).
  reflexivity.
Qed.

(** C6 fails on the code.  Two bytes offered to the full cursor: the call
    returns -2, yet the macro does not return it; control falls through, and
    a function whose body is the macro followed by [rest] goes on with
    [rest]. *)
Theorem FR_DBUFF_MEMCPY_IN_shortfall_not_returned :
  fr_dbuff_memcpy_in 1 st_full 5000 [Byte.x01; Byte.x02] 2 = Ok (st_full, -2)
  /\ FR_DBUFF_MEMCPY_IN 1 st_full 5000 [Byte.x01; Byte.x02] 2
     = Ok (st_full, Fallthrough)
  /\ forall rest : stmt,
       seq (fun st => FR_DBUFF_MEMCPY_IN 1 st 5000 [Byte.x01; Byte.x02] 2) rest st_full
       = rest st_full.
Proof.
  assert (H : FR_DBUFF_MEMCPY_IN 1 st_full 5000 [Byte.x01; Byte.x02] 2
              = Ok (st_full, Fallthrough)) by (vm_compute; reflexivity).
  split; [ vm_compute; reflexivity | ].
  split; [ exact H | ].
  intros rest. unfold seq. rewrite H. reflexivity.
Qed.

(** ** Seeking *)

(** C8, amended.  [fr_dbuff_start] and [fr_dbuff_end] on a cursor that has a
    parent do not fail: they return the new position, set [p] to [start] and
    to [end], and leave the parent (and every other cursor) and the memory as
    they were. *)
Theorem seek_derived_repositions (st : state) (dbuff q : Z) (d : fr_dbuff_t) :
  dbuffs st !! dbuff = Some d ->
  parent d = Some q ->
  (exists st', fr_dbuff_start st dbuff = Ok (st', start d)
     /\ (p <$> dbuffs st' !! dbuff) = Some (start d)
     /\ (forall a, a <> dbuff -> dbuffs st' !! a = dbuffs st !! a)
     /\ mem st' = mem st)
  /\ (exists st', fr_dbuff_end st dbuff = Ok (st', end_ d)
     /\ (p <$> dbuffs st' !! dbuff) = Some (end_ d)
     /\ (forall a, a <> dbuff -> dbuffs st' !! a = dbuffs st !! a)
     /\ mem st' = mem st).
Proof.
  intros Hd _. unfold fr_dbuff_start, fr_dbuff_end, deref. rewrite Hd. cbn.
  split; eexists; (split; [ reflexivity | ]); cbn;
    rewrite lookup_insert_eq; (split; [ reflexivity | ]);
    (split; [ | reflexivity ]); intros a Ha; apply lookup_insert_ne; congruence.
Qed.

Lemma seek_derived_repositions_witness :
  (exists st', fr_dbuff_start st_derived 6000 = Ok (st', 1000)
     /\ (p <$> dbuffs st' !! 6000) = Some 1000
     /\ (forall a, a <> 6000 -> dbuffs st' !! a = dbuffs st_derived !! a)
     /\ mem st' = mem st_derived)
  /\ (exists st', fr_dbuff_end st_derived 6000 = Ok (st', 1008)
     /\ (p <$> dbuffs st' !! 6000) = Some 1008
     /\ (forall a, a <> 6000 -> dbuffs st' !! a = dbuffs st_derived !! a)
     /\ mem st' = mem st_derived).
Proof.
  apply (seek_derived_repositions st_derived 6000 5000
           (mk_dbuff 1000 1008 1004 false (Some 5000))); reflexivity.
Defined.

(** C8 as stated fails: on the child made by [FR_DBUFF_RESERVE] both seeks
    return normally and move [p] from 1004, to 1000 and to 1008, while the
    parent stays at 1004. *)
Lemma seek_derived_not_refused :
  ('(st1, child) ← FR_DBUFF_RESERVE
       {| dbuffs := {[ 5000 := mk_dbuff 1000 1010 1004 false None ]};
          mem := region10 |} 5000 2 6000;
   '(st2, r2) ← fr_dbuff_start st1 child;
   '(st3, r3) ← fr_dbuff_end st2 child;
   Ok (parent <$> dbuffs st1 !! child, p <$> dbuffs st1 !! child,
       r2, p <$> dbuffs st2 !! child,
       r3, p <$> dbuffs st3 !! child, p <$> dbuffs st3 !! 5000))
  = Ok (Some (Some 5000), Some 1004,
        1000, Some 1000,
        1008, Some 1008, Some 1004).
Proof. vm_compute. reflexivity. Qed.

(** ** The maximum-length view *)

(** The free space of a cursor that satisfies its invariant is [end - p]. *)
Lemma freespace_ok (d : fr_dbuff_t) :
  dbuff_ok d = true ->
  fr_dbuff_freespace d = end_ d - p d /\ 0 <= end_ d - p d <= SSIZE_MAX.
Proof.
  unfold dbuff_ok, in_window, fr_dbuff_freespace. intros H. bools.
  split; [ apply to_size_t_id; unfold SSIZE_MAX, SIZE_MOD in *; lia | lia ].
Qed.

(** C7, amended.  For a cursor [d] at [dbuff] that satisfies its invariant
    and a limit [max], [FR_DBUFF_MAX] yields a cursor whose free space is
    [min max (freespace d)].  When the free space of [d] exceeds [max] (and
    the numeric value of the pointer exceeds the bytes to reserve, the first
    guard of the reservation) it is a new child whose [parent] is [dbuff];
    otherwise it is the cursor [dbuff] itself, unchanged, and no child is
    made. *)
Theorem FR_DBUFF_MAX_freespace (st : state) (dbuff max lit : Z) (d : fr_dbuff_t) :
  dbuffs st !! dbuff = Some d ->
  dbuff_ok d = true ->
  0 <= max ->
  (max < fr_dbuff_freespace d -> fr_dbuff_freespace d - max < to_size_t dbuff) ->
  exists st' r d',
    FR_DBUFF_MAX st dbuff max lit = Ok (st', r)
    /\ dbuffs st' !! r = Some d'
    /\ fr_dbuff_freespace d' = Z.min max (fr_dbuff_freespace d)
    /\ (max < fr_dbuff_freespace d ->
        r = lit /\ parent d' = Some dbuff /\ st' = set_dbuff st lit d')
    /\ (fr_dbuff_freespace d <= max ->
        r = dbuff /\ d' = d /\ st' = st).
Proof.
  intros Hd Hok Hmax Hptr.
  destruct (freespace_ok d Hok) as [Hfs Hrange].
  pose proof Hok as Hok'. unfold dbuff_ok, in_window in Hok'. bools.
  unfold FR_DBUFF_MAX, deref. rewrite Hd. cbn.
  destruct (fr_dbuff_freespace d >? max) eqn:E; bools.
  - unfold FR_DBUFF_RESERVE, deref. rewrite Hd. cbn.
    assert (Hres : to_size_t (fr_dbuff_freespace d - max) = fr_dbuff_freespace d - max)
      by (apply to_size_t_id; unfold SSIZE_MAX, SIZE_MOD in *; lia).
    rewrite Hres.
    eexists _, lit, _. split; [ reflexivity | ].
    split; [ cbn; apply lookup_insert_eq | ].
    rewrite reserve_init_fits by (try apply Hptr; lia).
    split; [ | split; [ intros _; repeat split | lia ] ].
    unfold fr_dbuff_freespace at 1. cbn.
    replace (end_ d - (fr_dbuff_freespace d - max)
             - Z.min (p d) (end_ d - (fr_dbuff_freespace d - max)))
      with max by lia.
    rewrite to_size_t_id by (unfold SSIZE_MAX, SIZE_MOD in *; lia). lia.
  - eexists st, dbuff, d. split; [ reflexivity | ].
    split; [ exact Hd | ].
    split; [ lia | ].
    split; [ lia | intros _; repeat split ].
Qed.

(** Scenario 4 of the specification: the root cursor over ten bytes limited
    to three. *)
Lemma FR_DBUFF_MAX_freespace_witness :
  exists st' r d',
    FR_DBUFF_MAX st_root 5000 3 6000 = Ok (st', r)
    /\ dbuffs st' !! r = Some d'
    /\ fr_dbuff_freespace d' = Z.min 3 (fr_dbuff_freespace (mk_dbuff 1000 1010 1000 false None))
    /\ (3 < fr_dbuff_freespace (mk_dbuff 1000 1010 1000 false None) ->
        r = 6000 /\ parent d' = Some 5000 /\ st' = set_dbuff st_root 6000 d')
    /\ (fr_dbuff_freespace (mk_dbuff 1000 1010 1000 false None) <= 3 ->
        r = 5000 /\ d' = mk_dbuff 1000 1010 1000 false None /\ st' = st_root).
Proof.
  apply (FR_DBUFF_MAX_freespace st_root 5000 3 6000 (mk_dbuff 1000 1010 1000 false None)).
  - reflexivity.
  - reflexivity.
  - lia.
  - intros _. vm_compute. reflexivity.
Defined.

(** C7 as stated fails: a limit of ten bytes on the root cursor, whose free
    space is ten, yields the root cursor itself; the state is unchanged and
    the [parent] of the cursor obtained is null, not the address 5000 it was
    derived from. *)
Lemma FR_DBUFF_MAX_returns_parent_itself :
  FR_DBUFF_MAX st_root 5000 10 6000 = Ok (st_root, 5000)
  /\ dbuffs st_root !! 6000 = None
  /\ (parent <$> dbuffs st_root !! 5000) = Some None
  /\ (parent <$> dbuffs st_root !! 5000) <> Some (Some 5000).
Proof. vm_compute. repeat split. discriminate. Qed.

(** ** Parent chains *)

Section chains.
Context (m : gmap Z fr_dbuff_t).

Lemma chain_nil_inv (a : Z) :
  chain m a [] = true -> exists d, m !! a = Some d /\ parent d = None.
Proof.
  cbn. destruct (m !! a) as [d | ]; [ | discriminate ].
  intros H. bools. eauto.
Qed.

Lemma chain_cons_inv (a q : Z) (l : list Z) :
  chain m a (q :: l) = true ->
  exists d, m !! a = Some d /\ parent d = Some q /\ chain m q l = true.
Proof.
  cbn. destruct (m !! a) as [d | ]; [ | discriminate ].
  intros H. bools. eauto.
Qed.

(** The store determines the chain of a cursor. *)
Lemma chain_unique (l1 l2 : list Z) (a : Z) :
  chain m a l1 = true -> chain m a l2 = true -> l1 = l2.
Proof.
  revert l2 a. induction l1 as [ | q1 l1 IH]; intros [ | q2 l2] a H1 H2.
  - reflexivity.
  - apply chain_nil_inv in H1 as (d & Hd & Hp).
    apply chain_cons_inv in H2 as (d' & Hd' & Hp' & _). congruence.
  - apply chain_nil_inv in H2 as (d & Hd & Hp).
    apply chain_cons_inv in H1 as (d' & Hd' & Hp' & _). congruence.
  - apply chain_cons_inv in H1 as (d & Hd & Hp & H1).
    apply chain_cons_inv in H2 as (d' & Hd' & Hp' & H2).
    assert (q1 = q2) as -> by congruence.
    f_equal. eapply IH; eassumption.
Qed.

(** Every cursor of a chain has a chain of its own, which is not longer. *)
Lemma chain_from_member (l : list Z) (a x : Z) :
  chain m a l = true -> x ∈ a :: l ->
  exists l', chain m x l' = true /\ (length l' <= length l)%nat.
Proof.
  revert a. induction l as [ | q l IH]; intros a H Hx.
  - apply list_elem_of_singleton in Hx as ->. exists []. split; [ exact H | lia ].
  - apply elem_of_cons in Hx as [-> | Hx].
    + exists (q :: l). split; [ exact H | lia ].
    + apply chain_cons_inv in H as (d & Hd & Hp & H).
      destruct (IH q H Hx) as (l' & Hl' & Hlen).
      exists l'. split; [ exact Hl' | cbn; lia ].
Qed.

(** A chain that ends does not visit a cursor twice. *)
Lemma chain_NoDup (l : list Z) (a : Z) :
  chain m a l = true -> NoDup (a :: l).
Proof.
  revert a. induction l as [ | q l IH]; intros a H.
  - apply NoDup_singleton.
  - pose proof H as H'.
    apply chain_cons_inv in H' as (d & Hd & Hp & Hq).
    apply NoDup_cons. split; [ | apply IH; exact Hq ].
    intros Hin.
    destruct (chain_from_member l q a Hq Hin) as (l' & Hl' & Hlen).
    pose proof (chain_unique _ _ _ H Hl') as <-. cbn in Hlen. lia.
Qed.

Lemma chain_inv_chain (l : list Z) (a : Z) :
  chain_inv m a l = true -> chain m a l = true.
Proof.
  revert a. induction l as [ | q l IH]; intros a; cbn;
    destruct (m !! a) as [d | ]; try discriminate; intros H; bools.
  - apply bool_decide_eq_true. assumption.
  - apply andb_true_intro. split; [ apply bool_decide_eq_true; assumption | ].
    apply IH. assumption.
Qed.

Lemma chain_inv_head_ok (l : list Z) (a : Z) (d : fr_dbuff_t) :
  chain_inv m a l = true -> m !! a = Some d -> dbuff_ok d = true.
Proof.
  intros H Hd. destruct l; cbn in H; rewrite Hd in H;
    apply andb_prop in H as [H _]; exact H.
Qed.

(** Storing to a cursor outside of a chain does not change the chain. *)
Lemma chain_insert_frame (l : list Z) (a b : Z) (d : fr_dbuff_t) :
  a ∉ b :: l -> chain (<[a := d]> m) b l = chain m b l.
Proof.
  revert b. induction l as [ | q l IH]; intros b Hnotin;
    apply not_elem_of_cons in Hnotin as [Hne Hnotin]; cbn;
    rewrite lookup_insert_ne by congruence.
  - reflexivity.
  - rewrite IH by assumption. reflexivity.
Qed.

Lemma chain_inv_insert_frame (l : list Z) (a b : Z) (d : fr_dbuff_t) :
  a ∉ b :: l -> chain_inv (<[a := d]> m) b l = chain_inv m b l.
Proof.
  revert b. induction l as [ | q l IH]; intros b Hnotin;
    pose proof Hnotin as Hnotin';
    apply not_elem_of_cons in Hnotin' as [Hne Hnotin']; cbn;
    rewrite lookup_insert_ne by congruence.
  - reflexivity.
  - rewrite IH by assumption.
    apply not_elem_of_cons in Hnotin' as [Hne' _].
    rewrite (lookup_insert_ne m a q) by congruence. reflexivity.
Qed.
End chains.

Lemma chain_member_lookup (m : gmap Z fr_dbuff_t) (l : list Z) (a x : Z) :
  chain m a l = true -> x ∈ a :: l -> is_Some (m !! x).
Proof.
  intros H Hx. destruct (chain_from_member m l a x H Hx) as (l' & Hl' & _).
  destruct l'; cbn in Hl'; destruct (m !! x); try discriminate; eauto.
Qed.

(** ** Advancing a list of cursors *)

Lemma advance_zero (d : fr_dbuff_t) : advance 0 d = d.
Proof. destruct d. unfold advance. cbn. f_equal. lia. Qed.

Lemma insert_advance (m : gmap Z fr_dbuff_t) (a inlen : Z) (d : fr_dbuff_t) :
  m !! a = Some d -> <[a := advance inlen d]> m = alter (advance inlen) a m.
Proof.
  intros Hd. apply map_eq. intros i. destruct (decide (a = i)) as [-> | Hne].
  - rewrite lookup_insert_eq, lookup_alter_eq, Hd. reflexivity.
  - rewrite lookup_insert_ne, lookup_alter_ne by assumption. reflexivity.
Qed.

Lemma advance_all_lookup_notin (inlen : Z) (l : list Z) (m : gmap Z fr_dbuff_t) (a : Z) :
  a ∉ l -> advance_all inlen l m !! a = m !! a.
Proof.
  revert m. induction l as [ | b l IH]; intros m Hnotin; cbn; [ reflexivity | ].
  apply not_elem_of_cons in Hnotin as [Hne Hnotin].
  rewrite IH by assumption. apply lookup_alter_ne. congruence.
Qed.

Lemma advance_all_lookup_in (inlen : Z) (l : list Z) (m : gmap Z fr_dbuff_t) (a : Z) :
  NoDup l -> a ∈ l -> advance_all inlen l m !! a = advance inlen <$> m !! a.
Proof.
  revert m. induction l as [ | b l IH]; intros m Hnd Hin; [ inversion Hin | ].
  apply NoDup_cons in Hnd as [Hb Hnd]. cbn.
  apply elem_of_cons in Hin as [-> | Hin].
  - rewrite advance_all_lookup_notin by assumption. apply lookup_alter_eq.
  - rewrite IH by assumption. rewrite lookup_alter_ne; [ reflexivity | ].
    intros ->. contradiction.
Qed.

(** ** Bytes stored by [memcpy] *)

Lemma memcpy_bytes_lookup_out (src : list Byte.byte) (m : gmap Z Byte.byte) (dst a : Z) :
  a < dst \/ dst + Z.of_nat (length src) <= a ->
  memcpy_bytes m dst src !! a = m !! a.
Proof.
  revert m dst. induction src as [ | b src IH]; intros m dst Ha; cbn; [ reflexivity | ].
  cbn [length] in Ha. rewrite IH by lia. apply lookup_insert_ne. lia.
Qed.

Lemma memcpy_bytes_lookup_in (src : list Byte.byte) (m : gmap Z Byte.byte) (dst : Z)
  (i : nat) (b : Byte.byte) :
  src !! i = Some b ->
  memcpy_bytes m dst src !! (dst + Z.of_nat i) = Some b.
Proof.
  revert m dst i. induction src as [ | b' src IH]; intros m dst i Hi; [ discriminate | ].
  cbn. destruct i as [ | i]; cbn in Hi.
  - injection Hi as ->. rewrite memcpy_bytes_lookup_out by lia.
    replace (dst + Z.of_nat 0) with dst by lia. apply lookup_insert_eq.
  - replace (dst + Z.of_nat (S i)) with (dst + 1 + Z.of_nat i) by lia.
    apply IH. exact Hi.
Qed.

(** Copying the same bytes to the same place again changes nothing. *)
Lemma memcpy_bytes_idemp (src : list Byte.byte) (m : gmap Z Byte.byte) (dst : Z) :
  memcpy_bytes (memcpy_bytes m dst src) dst src = memcpy_bytes m dst src.
Proof.
  apply map_eq. intros a.
  destruct (decide (dst <= a < dst + Z.of_nat (length src))) as [Hin | Hout].
  - assert (Hi : (Z.to_nat (a - dst) < length src)%nat) by lia.
    apply lookup_lt_is_Some in Hi as [b Hb].
    replace a with (dst + Z.of_nat (Z.to_nat (a - dst))) by lia.
    rewrite !(memcpy_bytes_lookup_in src _ dst _ b Hb). reflexivity.
  - rewrite memcpy_bytes_lookup_out by lia. reflexivity.
Qed.

(** ** Writes that fit *)

Lemma memcpy_fits (m : gmap Z Byte.byte) (dst : Z) (src : list Byte.byte) (n : Z) :
  n <= Z.of_nat (length src) ->
  memcpy m dst src n = Ok (memcpy_bytes m dst (take (Z.to_nat n) src)).
Proof.
  intros Hn. unfold memcpy.
  replace (n <=? Z.of_nat (length src)) with true by (symmetry; apply Z.leb_le; lia).
  reflexivity.
Qed.

(** One call of [fr_dbuff_memcpy_in] on a cursor with room for [inlen]
    bytes: the bytes are copied to [p], [p] is advanced, and the call goes on
    with the parent, if there is one. *)
Lemma memcpy_in_step (fuel : nat) (st : state) (dbuff : Z) (d : fr_dbuff_t)
  (in_ : list Byte.byte) (inlen : Z) :
  dbuffs st !! dbuff = Some d ->
  is_const d = false ->
  inlen <= fr_dbuff_freespace d ->
  inlen <= Z.of_nat (length in_) ->
  fr_dbuff_memcpy_in (S fuel) st dbuff in_ inlen
  = let st' := {| dbuffs := <[dbuff := advance inlen d]> (dbuffs st);
                  mem := memcpy_bytes (mem st) (p d) (take (Z.to_nat inlen) in_) |} in
    match parent d with
    | Some q =>
      '(st'', r) ← fr_dbuff_memcpy_in fuel st' q in_ inlen;
      Ok (st'', to_ssize_t (to_size_t r))
    | None => Ok (st', to_ssize_t (to_size_t inlen))
    end.
Proof.
  intros Hd Hc Hfs Hsrc. cbn [fr_dbuff_memcpy_in]. unfold deref. rewrite Hd. cbn.
  rewrite Hc. cbn.
  replace (inlen >? fr_dbuff_freespace d) with false
    by (symmetry; rewrite Z.gtb_ltb; apply Z.ltb_ge; lia).
  rewrite memcpy_fits by assumption. reflexivity.
Qed.

Lemma to_ssize_t_to_size_t_id (z : Z) :
  - 2 ^ 63 <= z <= SSIZE_MAX -> to_ssize_t (to_size_t z) = z.
Proof. intros H. rewrite to_ssize_t_to_size_t. apply to_ssize_t_id. exact H. Qed.

(** C9.  A write of 0 bytes through a cursor whose chain of parents ends at
    a root and holds no const cursor returns 0 and leaves the whole state
    (the position of the cursor, the positions of its ancestors, the memory)
    unchanged, whatever the free space of the cursor. *)
Theorem memcpy_in_zero (l : list Z) (fuel : nat) (st : state) (dbuff : Z)
  (in_ : list Byte.byte) :
  chain (dbuffs st) dbuff l = true ->
  forallb (mutable (dbuffs st)) (dbuff :: l) = true ->
  (length l < fuel)%nat ->
  fr_dbuff_memcpy_in fuel st dbuff in_ 0 = Ok (st, 0).
Proof.
  revert fuel dbuff. induction l as [ | q l IH]; intros fuel dbuff Hch Hmut Hfuel;
    (destruct fuel as [ | fuel]; [ cbn in Hfuel; lia | ]);
    cbn [forallb] in Hmut; apply andb_prop in Hmut as [Hm Hmut];
    unfold mutable in Hm.
  - apply chain_nil_inv in Hch as (d & Hd & Hp). rewrite Hd in Hm. apply negb_true_iff in Hm.
    rewrite (memcpy_in_step fuel st dbuff d) by
      (try assumption; try (pose proof (to_size_t_range (end_ d - p d));
                            unfold fr_dbuff_freespace); lia).
    cbn zeta. rewrite Hp, advance_zero, insert_id by assumption.
    destruct st. reflexivity.
  - apply chain_cons_inv in Hch as (d & Hd & Hp & Hch). rewrite Hd in Hm. apply negb_true_iff in Hm.
    rewrite (memcpy_in_step fuel st dbuff d) by
      (try assumption; try (pose proof (to_size_t_range (end_ d - p d));
                            unfold fr_dbuff_freespace); lia).
    cbn zeta. rewrite Hp, advance_zero, insert_id by assumption.
    replace {| dbuffs := dbuffs st; mem := memcpy_bytes (mem st) (p d) (take (Z.to_nat 0) in_) |}
      with st by (destruct st; reflexivity).
    rewrite IH by (try assumption; cbn in Hfuel; lia). reflexivity.
Qed.

Lemma memcpy_in_zero_witness :
  fr_dbuff_memcpy_in 2 st_full_derived 6000 [] 0 = Ok (st_full_derived, 0).
Proof.
  apply (memcpy_in_zero [5000] 2 st_full_derived 6000 []).
  - reflexivity.
  - reflexivity.
  - cbn. lia.
Defined.

(** A write that fits the cursor, along a chain that satisfies the
    invariants: every call on the way to the root finds room, the bytes end
    up at the position of the first cursor, and every cursor of the chain is
    advanced. *)
Lemma memcpy_in_chain (l : list Z) (fuel : nat) (st : state) (dbuff : Z)
  (d : fr_dbuff_t) (in_ : list Byte.byte) (inlen : Z) :
  dbuffs st !! dbuff = Some d ->
  chain_inv (dbuffs st) dbuff l = true ->
  is_const d = false ->
  0 <= inlen <= fr_dbuff_freespace d ->
  inlen <= Z.of_nat (length in_) ->
  (length l < fuel)%nat ->
  fr_dbuff_memcpy_in fuel st dbuff in_ inlen
  = Ok ({| dbuffs := advance_all inlen (dbuff :: l) (dbuffs st);
           mem := memcpy_bytes (mem st) (p d) (take (Z.to_nat inlen) in_) |},
        inlen).
Proof.
  revert fuel st dbuff d.
  induction l as [ | q l IH]; intros fuel st dbuff d Hd Hinv Hc Hlen Hsrc Hfuel;
    (destruct fuel as [ | fuel]; [ cbn in Hfuel; lia | ]);
    pose proof (chain_NoDup _ _ _ (chain_inv_chain _ _ _ Hinv)) as Hnd;
    cbn [chain_inv] in Hinv; rewrite Hd in Hinv;
    apply andb_prop in Hinv as [Hok Hinv];
    destruct (freespace_ok d Hok) as [Hfs Hrange];
    rewrite (memcpy_in_step fuel st dbuff d) by (assumption || lia);
    cbn zeta.
  - apply bool_decide_eq_true in Hinv. rewrite Hinv.
    rewrite to_ssize_t_to_size_t_id by lia.
    cbn [advance_all]. rewrite (insert_advance _ _ _ _ Hd). reflexivity.
  - apply andb_prop in Hinv as [Hinv Hinvq]. apply andb_prop in Hinv as [Hp Hlink].
    apply bool_decide_eq_true in Hp. rewrite Hp.
    destruct (dbuffs st !! q) as [dq | ] eqn:Hq; [ | discriminate ].
    apply NoDup_cons in Hnd as [Hnotin _].
    pose proof Hnotin as Hne. apply not_elem_of_cons in Hne as [Hne _].
    pose proof (chain_inv_head_ok _ _ _ _ Hinvq Hq) as Hokq.
    destruct (freespace_ok dq Hokq) as [Hfsq Hrangeq];
      unfold link_ok in Hlink; apply andb_prop in Hlink as [Hlink Hconst];
      apply andb_prop in Hlink as [Hend Hpos]; apply Z.leb_le in Hend;
      apply orb_prop in Hpos;
      (assert (Hcq : is_const dq = false)
         by (destruct (is_const dq); [ rewrite Hc in Hconst; discriminate | reflexivity ]));
      (rewrite (IH fuel _ q dq);
       [ | cbn; rewrite lookup_insert_ne by congruence; exact Hq
         | cbn; rewrite chain_inv_insert_frame by assumption; exact Hinvq
         | exact Hcq
         | destruct Hpos as [Hpos | Hpos]; apply Z.eqb_eq in Hpos; lia
         | exact Hsrc
         | cbn in Hfuel |- *; lia ]);
      cbn;
      rewrite to_ssize_t_to_size_t_id by lia;
      rewrite (insert_advance _ _ _ _ Hd);
      (destruct Hpos as [Hpos | Hpos]; apply Z.eqb_eq in Hpos;
       [ rewrite <- Hpos, memcpy_bytes_idemp; reflexivity
       | replace inlen with 0 by lia; reflexivity ]).
Qed.

(** C2.  When the invariants hold along the chain of a cursor that is not
    const, a write of [inlen <= freespace] bytes returns [inlen]; the byte
    [i] of the source is at [p + i] for every [i < inlen] and no other byte
    of memory differs; the cursor and every ancestor are what they were with
    [p] increased by exactly [inlen], and no other cursor differs. *)
Theorem memcpy_in_fits (l : list Z) (fuel : nat) (st : state) (dbuff : Z)
  (d : fr_dbuff_t) (in_ : list Byte.byte) (inlen : Z) :
  dbuffs st !! dbuff = Some d ->
  chain_inv (dbuffs st) dbuff l = true ->
  is_const d = false ->
  0 <= inlen <= fr_dbuff_freespace d ->
  inlen <= Z.of_nat (length in_) ->
  (length l < fuel)%nat ->
  exists st',
    fr_dbuff_memcpy_in fuel st dbuff in_ inlen = Ok (st', inlen)
    /\ (forall (i : nat) (b : Byte.byte),
          in_ !! i = Some b -> Z.of_nat i < inlen ->
          mem st' !! (p d + Z.of_nat i) = Some b)
    /\ (forall a, a < p d \/ p d + inlen <= a -> mem st' !! a = mem st !! a)
    /\ dbuffs st' !! dbuff
       = Some {| start := start d; end_ := end_ d; p := p d + inlen;
                 is_const := is_const d; parent := parent d |}
    /\ (forall a da, a ∈ l -> dbuffs st !! a = Some da ->
          dbuffs st' !! a
          = Some {| start := start da; end_ := end_ da; p := p da + inlen;
                    is_const := is_const da; parent := parent da |})
    /\ (forall a, a ∉ dbuff :: l -> dbuffs st' !! a = dbuffs st !! a).
Proof.
  intros Hd Hinv Hc Hlen Hsrc Hfuel.
  pose proof (chain_NoDup _ _ _ (chain_inv_chain _ _ _ Hinv)) as Hnd.
  eexists. split; [ apply memcpy_in_chain; eassumption | ]. cbn [mem dbuffs].
  split; [ | split; [ | split; [ | split ] ] ].
  - intros i b Hi Hlt. apply memcpy_bytes_lookup_in.
    rewrite lookup_take_lt by lia. exact Hi.
  - intros a Ha. apply memcpy_bytes_lookup_out.
    rewrite length_take. lia.
  - rewrite advance_all_lookup_in by (assumption || apply elem_of_cons; left; reflexivity).
    rewrite Hd. reflexivity.
  - intros a da Ha Hda.
    rewrite advance_all_lookup_in
      by (assumption || apply elem_of_cons; right; exact Ha).
    rewrite Hda. reflexivity.
  - intros a Ha. apply advance_all_lookup_notin. exact Ha.
Qed.

(** The macros build this state from the root cursor. *)
Example st_nested_derived :
  ('(st1, a) ← FR_DBUFF_RESERVE st_root 5000 2 6000;
   '(st2, b) ← FR_DBUFF_MAX st1 a 4 7000;
   Ok (st2, a, b))
  = Ok (st_nested, 6000, 7000).
Proof. vm_compute. reflexivity. Qed.

Lemma memcpy_in_fits_witness :
  exists st',
    fr_dbuff_memcpy_in 3 st_nested 7000 [Byte.x0a; Byte.x0b; Byte.x0c; Byte.x0d] 4
    = Ok (st', 4)
    /\ dbuffs st' !! 7000 = Some (mk_dbuff 1000 1004 1004 false (Some 6000))
    /\ dbuffs st' !! 6000 = Some (mk_dbuff 1000 1008 1004 false (Some 5000))
    /\ dbuffs st' !! 5000 = Some (mk_dbuff 1000 1010 1004 false None)
    /\ mem st' !! 1000 = Some Byte.x0a
    /\ mem st' !! 1003 = Some Byte.x0d
    /\ mem st' !! 1004 = Some Byte.xff.
Proof.
  destruct (memcpy_in_fits [6000; 5000] 3 st_nested 7000
              (mk_dbuff 1000 1004 1000 false (Some 6000))
              [Byte.x0a; Byte.x0b; Byte.x0c; Byte.x0d] 4)
    as (st' & Hrun & Hbytes & Hrest & Hc & Hanc & _).
  - reflexivity.
  - vm_compute. reflexivity.
  - reflexivity.
  - vm_compute. split; discriminate.
  - cbn. lia.
  - cbn. lia.
  - exists st'. split; [ exact Hrun | ].
    split; [ exact Hc | ].
    split; [ apply (Hanc 6000 (mk_dbuff 1000 1008 1000 false (Some 5000)));
             [ apply elem_of_cons; left; reflexivity | reflexivity ] | ].
    split; [ apply (Hanc 5000 (mk_dbuff 1000 1010 1000 false None));
             [ apply elem_of_cons; right; apply elem_of_cons; left; reflexivity
             | reflexivity ] | ].
    split; [ apply (Hbytes 0%nat Byte.x0a); [ reflexivity | cbn; lia ] | ].
    split; [ apply (Hbytes 3%nat Byte.x0d); [ reflexivity | cbn; lia ] | ].
    rewrite (Hrest 1004) by (cbn; lia). reflexivity.
Defined.

(** Scenario 5, evaluated: the write returns 4 and the free space of the
    three cursors becomes 6, 4 and 0. *)
Example nested_write_freespace :
  ('(st', r) ← fr_dbuff_memcpy_in 3 st_nested 7000
                 [Byte.x0a; Byte.x0b; Byte.x0c; Byte.x0d] 4;
   Ok (r, fr_dbuff_freespace <$> dbuffs st' !! 5000,
          fr_dbuff_freespace <$> dbuffs st' !! 6000,
          fr_dbuff_freespace <$> dbuffs st' !! 7000,
          mem st' !! 1000, mem st' !! 1003, mem st' !! 1004))
  = Ok (4, Some 6, Some 4, Some 0,
        Some Byte.x0a, Some Byte.x0d, Some Byte.xff).
Proof. vm_compute. reflexivity. Qed.

(** ** Writes through an ephemeral copy *)

(** A call that returns a non-negative value, for a size that fits
    [ssize_t], has advanced every cursor of the chain and returns the size. *)
Lemma memcpy_in_success (l : list Z) (fuel : nat) (st st' : state) (dbuff : Z)
  (in_ : list Byte.byte) (inlen r : Z) :
  chain (dbuffs st) dbuff l = true ->
  0 <= inlen <= SSIZE_MAX ->
  fr_dbuff_memcpy_in fuel st dbuff in_ inlen = Ok (st', r) ->
  0 <= r ->
  r = inlen /\ dbuffs st' = advance_all inlen (dbuff :: l) (dbuffs st).
Proof.
  revert fuel st st' dbuff r.
  induction l as [ | q l IH]; intros fuel st st' dbuff r Hch Hlen Hrun Hr;
    (destruct fuel as [ | fuel]; [ discriminate | ]);
    pose proof (chain_NoDup _ _ _ Hch) as Hnd;
    [ apply chain_nil_inv in Hch as (d & Hd & Hp)
    | apply chain_cons_inv in Hch as (d & Hd & Hp & Hch) ];
    cbn [fr_dbuff_memcpy_in] in Hrun; unfold deref in Hrun; rewrite Hd in Hrun;
    cbn in Hrun; (destruct (is_const d); [ discriminate | ]); cbn in Hrun;
    pose proof (to_size_t_range (end_ d - p d)) as Hfs;
    fold (fr_dbuff_freespace d) in Hfs;
    (destruct (inlen >? fr_dbuff_freespace d) eqn:E;
     [ exfalso; apply Z.gtb_lt in E; injection Hrun as _ <-;
       rewrite shortfall_value, to_ssize_t_id in Hr by (unfold SSIZE_MAX in *; lia);
       lia
     | ]);
    (destruct (memcpy (mem st) (p d) in_ inlen) as [m' | | | ]; try discriminate);
    cbn in Hrun; rewrite Hp in Hrun.
  - injection Hrun as <- <-. rewrite to_ssize_t_to_size_t_id by lia.
    split; [ reflexivity | ]. cbn. apply insert_advance. exact Hd.
  - destruct (fr_dbuff_memcpy_in fuel _ q in_ inlen) as [[st'' r'] | | | ] eqn:Hrec;
      try discriminate.
    cbn in Hrun. injection Hrun as <- <-.
    pose proof (memcpy_in_ret_range _ _ _ _ _ _ _ Hrec) as Hr'.
    rewrite to_ssize_t_to_size_t_id in * by assumption.
    apply NoDup_cons in Hnd as [Hnotin _].
    apply IH in Hrec; [ | cbn; rewrite chain_insert_frame by assumption; exact Hch
                        | assumption | assumption ].
    destruct Hrec as [-> ->]. split; [ reflexivity | ].
    cbn. rewrite (insert_advance _ _ _ _ Hd). reflexivity.
Qed.

(** C10.  Let [d] be a cursor whose chain of parents ends at a root, and let
    a write of [n > 0] bytes go through the copy that [FR_DBUFF_NO_ADVANCE]
    makes of it at a new address.  If the write succeeds (it returns [n]),
    then the cursor [d] is as it was, in particular its [p], while the copy,
    which has the [parent] of [d], and every ancestor of [d] have [p]
    advanced by [n]. *)
Theorem no_advance_write (l : list Z) (fuel : nat) (st st1 st2 : state)
  (dbuff lit c : Z) (d : fr_dbuff_t) (in_ : list Byte.byte) (n : Z) :
  dbuffs st !! dbuff = Some d ->
  chain (dbuffs st) dbuff l = true ->
  dbuffs st !! lit = None ->
  0 < n ->
  FR_DBUFF_NO_ADVANCE st dbuff lit = Ok (st1, c) ->
  fr_dbuff_memcpy_in fuel st1 c in_ n = Ok (st2, n) ->
  dbuffs st1 !! c = Some d
  /\ dbuffs st2 !! c = Some (advance n d)
  /\ dbuffs st2 !! dbuff = Some d
  /\ (forall a, a ∈ l -> dbuffs st2 !! a = advance n <$> dbuffs st !! a).
Proof.
  intros Hd Hch Hlit Hn Hcopy Hrun.
  unfold FR_DBUFF_NO_ADVANCE, deref in Hcopy. rewrite Hd in Hcopy. cbn in Hcopy.
  injection Hcopy as <- <-.
  assert (Hfresh : lit ∉ dbuff :: l).
  { intros Hin. destruct (chain_member_lookup _ _ _ _ Hch Hin) as [x Hx]. congruence. }
  pose proof (chain_NoDup _ _ _ Hch) as Hnd.
  assert (Hch1 : chain (dbuffs (set_dbuff st lit d)) lit l = true).
  { cbn [set_dbuff dbuffs]. destruct l as [ | q l].
    - apply chain_nil_inv in Hch as (d' & Hd' & Hp).
      assert (d' = d) as -> by congruence.
      cbn. rewrite lookup_insert_eq. apply bool_decide_eq_true. exact Hp.
    - apply chain_cons_inv in Hch as (d' & Hd' & Hp & Hch).
      assert (d' = d) as -> by congruence.
      cbn [chain]. rewrite lookup_insert_eq.
      apply andb_true_intro. split; [ apply bool_decide_eq_true; exact Hp | ].
      rewrite chain_insert_frame; [ exact Hch | ].
      apply not_elem_of_cons in Hfresh as [_ Hfresh]. exact Hfresh. }
  pose proof (chain_NoDup _ _ _ Hch1) as Hnd1.
  pose proof (memcpy_in_ret_range _ _ _ _ _ _ _ Hrun) as Hrange.
  assert (Hn' : 0 <= n <= SSIZE_MAX) by lia.
  assert (Hr : 0 <= n) by lia.
  destruct (memcpy_in_success _ _ _ _ _ _ _ _ Hch1 Hn' Hrun Hr) as [_ Hst2].
  apply not_elem_of_cons in Hfresh as [Hne Hfresh].
  apply NoDup_cons in Hnd as [Hdl _].
  split; [ cbn; apply lookup_insert_eq | ].
  rewrite Hst2. cbn [set_dbuff dbuffs].
  split; [ | split ].
  - rewrite advance_all_lookup_in by (assumption || apply elem_of_cons; left; reflexivity).
    rewrite lookup_insert_eq. reflexivity.
  - rewrite advance_all_lookup_notin.
    + rewrite lookup_insert_ne by congruence. exact Hd.
    + apply not_elem_of_cons. split; [ congruence | exact Hdl ].
  - intros a Ha.
    rewrite advance_all_lookup_in by (assumption || apply elem_of_cons; right; exact Ha).
    rewrite lookup_insert_ne; [ reflexivity | ].
    intros ->. contradiction.
Qed.

(** The child of [st_derived] copied to a new object at 7000, and three
    bytes written through the copy: the child stays at 1004, the copy and
    the root move to 1007. *)
Lemma no_advance_write_witness :
  let d := mk_dbuff 1000 1008 1004 false (Some 5000) in
  dbuffs st_copied !! 7000 = Some d
  /\ dbuffs st_copy_written !! 7000 = Some (advance 3 d)
  /\ dbuffs st_copy_written !! 6000 = Some d
  /\ (forall a, a ∈ [5000] ->
        dbuffs st_copy_written !! a = advance 3 <$> dbuffs st_derived !! a).
Proof.
  apply (no_advance_write [5000] 2 st_derived st_copied st_copy_written
           6000 7000 7000 (mk_dbuff 1000 1008 1004 false (Some 5000))
           [Byte.x0a; Byte.x0b; Byte.x0c] 3).
  - reflexivity.
  - reflexivity.
  - reflexivity.
  - lia.
  - reflexivity.
  - vm_compute. reflexivity.
Defined.

(** Under the invariants the write through the copy does succeed. *)
Lemma no_advance_write_returns (l : list Z) (fuel : nat) (st : state)
  (dbuff lit : Z) (d : fr_dbuff_t) (in_ : list Byte.byte) (n : Z) :
  dbuffs st !! dbuff = Some d ->
  chain_inv (dbuffs st) dbuff l = true ->
  dbuffs st !! lit = None ->
  is_const d = false ->
  0 <= n <= fr_dbuff_freespace d ->
  n <= Z.of_nat (length in_) ->
  (length l < fuel)%nat ->
  exists st2,
    ('(st1, c) ← FR_DBUFF_NO_ADVANCE st dbuff lit;
     fr_dbuff_memcpy_in fuel st1 c in_ n) = Ok (st2, n).
Proof.
  intros Hd Hinv Hlit Hc Hn Hsrc Hfuel.
  unfold FR_DBUFF_NO_ADVANCE, deref. rewrite Hd. cbn.
  assert (Hfresh : lit ∉ dbuff :: l).
  { intros Hin.
    destruct (chain_member_lookup _ _ _ _ (chain_inv_chain _ _ _ Hinv) Hin) as [x Hx].
    congruence. }
  apply not_elem_of_cons in Hfresh as [Hne Hfresh].
  eexists. apply (memcpy_in_chain l fuel _ lit d); try assumption.
  - apply lookup_insert_eq.
  - unfold set_dbuff. cbn [dbuffs].
    destruct l as [ | q l]; cbn [chain_inv] in Hinv |- *;
      rewrite Hd in Hinv; rewrite lookup_insert_eq; [ exact Hinv | ].
    pose proof Hfresh as Hq. apply not_elem_of_cons in Hq as [Hq _].
    rewrite lookup_insert_ne by congruence.
    rewrite chain_inv_insert_frame by assumption. exact Hinv.
Qed.

(** ** The chain invariants are those of the derived cursors *)

(** A reservation that fits, made of a cursor whose chain satisfies the
    invariants, gives a child whose chain satisfies them. *)
Lemma chain_inv_reserve (m : gmap Z fr_dbuff_t) (l : list Z) (dbuff lit reserve : Z)
  (d : fr_dbuff_t) :
  m !! dbuff = Some d ->
  chain_inv m dbuff l = true ->
  m !! lit = None ->
  reserve < to_size_t dbuff ->
  0 <= reserve <= end_ d - start d ->
  chain_inv (<[lit := reserve_init dbuff d reserve]> m) lit (dbuff :: l) = true.
Proof.
  intros Hd Hinv Hlit Hptr Hres.
  assert (Hfresh : lit ∉ dbuff :: l).
  { intros Hin.
    destruct (chain_member_lookup _ _ _ _ (chain_inv_chain _ _ _ Hinv) Hin) as [x Hx].
    congruence. }
  pose proof Hfresh as Hne. apply not_elem_of_cons in Hne as [Hne _].
  pose proof (chain_inv_head_ok _ _ _ _ Hinv Hd) as Hok.
  cbn [chain_inv]. rewrite lookup_insert_eq, lookup_insert_ne, Hd by congruence.
  rewrite reserve_init_ok, chain_inv_insert_frame, Hinv by assumption.
  rewrite reserve_init_fits by assumption. cbn [parent].
  rewrite bool_decide_eq_true_2 by reflexivity.
  unfold link_ok. cbn [end_ p is_const]. cbn [andb]. rewrite andb_true_r.
  apply andb_true_intro. split; [ apply andb_true_intro; split | ].
  - apply Z.leb_le. lia.
  - apply orb_true_intro.
    destruct (Z.le_gt_cases (p d) (end_ d - reserve)); [ left | right ];
      apply Z.eqb_eq; lia.
  - destruct (is_const d); reflexivity.
Qed.

(** Advancing every cursor of a chain by a size that fits the first one
    keeps the invariants of the chain. *)
Lemma chain_inv_advance (inlen : Z) (l : list Z) (m m' : gmap Z fr_dbuff_t) (a : Z)
  (d : fr_dbuff_t) :
  (forall x, x ∈ a :: l -> m' !! x = advance inlen <$> m !! x) ->
  m !! a = Some d ->
  0 <= inlen <= end_ d - p d ->
  chain_inv m a l = true ->
  chain_inv m' a l = true.
Proof.
  revert a d. induction l as [ | q l IH]; intros a d Hm' Hd Hlen Hinv;
    cbn [chain_inv] in Hinv |- *;
    rewrite Hd in Hinv; rewrite (Hm' a), Hd by (apply elem_of_cons; left; reflexivity);
    cbn [fmap option_fmap option_map];
    apply andb_prop in Hinv as [Hok Hinv];
    (assert (Hok' : dbuff_ok (advance inlen d) = true)
       by (unfold dbuff_ok, in_window in Hok |- *; bools; cbn [advance start end_ p];
           repeat (apply andb_true_intro; split); apply Z.leb_le; lia));
    rewrite Hok'; cbn [andb advance parent]; [ exact Hinv | ].
  apply andb_prop in Hinv as [Hinv Hinvq]. apply andb_prop in Hinv as [Hp Hlink].
  rewrite Hp. cbn [andb].
  rewrite (Hm' q) by (apply elem_of_cons; right; apply elem_of_cons; left; reflexivity).
  destruct (m !! q) as [dq | ] eqn:Hq; [ | discriminate ].
  cbn [fmap option_fmap option_map].
  pose proof (chain_inv_head_ok _ _ _ _ Hinvq Hq) as Hokq.
  unfold dbuff_ok, in_window in Hok, Hokq. unfold link_ok in Hlink.
  apply andb_prop in Hlink as [Hlink Hconst]. apply andb_prop in Hlink as [Hend Hpos].
  apply orb_prop in Hpos. bools.
  apply andb_true_intro. split.
  - unfold link_ok. cbn [advance end_ p is_const]. rewrite Hconst, andb_true_r.
    apply andb_true_intro. split; [ apply Z.leb_le; lia | ].
    apply orb_true_intro.
    destruct Hpos as [Hpos | Hpos]; apply Z.eqb_eq in Hpos; [ left | right ];
      apply Z.eqb_eq; lia.
  - apply (IH q dq); [ | exact Hq | | exact Hinvq ].
    + intros x Hx. apply Hm'. apply elem_of_cons. right. exact Hx.
    + destruct Hpos as [Hpos | Hpos]; apply Z.eqb_eq in Hpos; lia.
Qed.

(** X21.  After a write that fits, the invariants hold along the chain
    again. *)
Lemma memcpy_in_chain_inv (l : list Z) (fuel : nat) (st : state) (dbuff : Z)
  (d : fr_dbuff_t) (in_ : list Byte.byte) (inlen : Z) :
  dbuffs st !! dbuff = Some d ->
  chain_inv (dbuffs st) dbuff l = true ->
  is_const d = false ->
  0 <= inlen <= fr_dbuff_freespace d ->
  inlen <= Z.of_nat (length in_) ->
  (length l < fuel)%nat ->
  exists st',
    fr_dbuff_memcpy_in fuel st dbuff in_ inlen = Ok (st', inlen)
    /\ chain_inv (dbuffs st') dbuff l = true.
Proof.
  intros Hd Hinv Hc Hlen Hsrc Hfuel.
  eexists. split; [ apply memcpy_in_chain; eassumption | ]. cbn [dbuffs].
  pose proof (chain_NoDup _ _ _ (chain_inv_chain _ _ _ Hinv)) as Hnd.
  destruct (freespace_ok d (chain_inv_head_ok _ _ _ _ Hinv Hd)) as [Hfs _].
  apply (chain_inv_advance inlen l (dbuffs st) _ dbuff d);
    [ | exact Hd | lia | exact Hinv ].
  intros x Hx. apply advance_all_lookup_in; assumption.
Qed.

(** ** The window invariant under writes and seeks *)

Lemma in_window_advance (d : fr_dbuff_t) (inlen : Z) :
  in_window d = true -> 0 <= inlen <= fr_dbuff_freespace d ->
  in_window (advance inlen d) = true.
Proof.
  unfold in_window, fr_dbuff_freespace, to_size_t, SIZE_MOD. intros H Hlen. bools.
  pose proof (Z.mod_le (end_ d - p d) (2 ^ 64)).
  cbn [advance start end_ p]. apply andb_true_intro. split; apply Z.leb_le; lia.
Qed.

(** Initialisation puts the cursor into its window. *)
Lemma _fr_dbuff_init_in_window (st st' : state) (out start' end' : Z) (c : bool) :
  store_in_window (dbuffs st) ->
  _fr_dbuff_init st out start' end' c = Ok st' ->
  store_in_window (dbuffs st')
  /\ (p <$> dbuffs st' !! out) = Some start'
  /\ (start <$> dbuffs st' !! out) = Some start'
  /\ (end_ <$> dbuffs st' !! out) = Some (Z.max start' end').
Proof.
  intros Hall. unfold _fr_dbuff_init, deref.
  destruct (dbuffs st !! out) as [d | ]; [ cbn | discriminate ].
  intros [= <-]. cbn. rewrite lookup_insert_eq. cbn.
  destruct (end' <? start') eqn:E; bools;
    (split; [ apply map_Forall_insert_2; [ | exact Hall ] | repeat split; f_equal; lia ]);
    unfold in_window; cbn; apply andb_true_intro; split; apply Z.leb_le; lia.
Qed.

(** A call of [fr_dbuff_memcpy_in] that returns, with or without a
    shortfall, leaves every cursor of the store in its window. *)
Lemma memcpy_in_in_window (fuel : nat) (st st' : state) (dbuff : Z)
  (in_ : list Byte.byte) (inlen r : Z) :
  0 <= inlen ->
  store_in_window (dbuffs st) ->
  fr_dbuff_memcpy_in fuel st dbuff in_ inlen = Ok (st', r) ->
  store_in_window (dbuffs st').
Proof.
  intros Hlen. revert st st' dbuff r.
  induction fuel as [ | fuel IH]; intros st st' dbuff r Hall Hrun; [ discriminate | ].
  cbn [fr_dbuff_memcpy_in] in Hrun. unfold deref in Hrun.
  destruct (dbuffs st !! dbuff) as [d | ] eqn:Hd; [ cbn in Hrun | discriminate ].
  destruct (is_const d); [ discriminate | cbn in Hrun ].
  destruct (inlen >? fr_dbuff_freespace d) eqn:E.
  - injection Hrun as <- _. exact Hall.
  - destruct (memcpy (mem st) (p d) in_ inlen) as [m' | | | ]; try discriminate.
    cbn in Hrun. rewrite Z.gtb_ltb in E. apply Z.ltb_ge in E.
    assert (Hall' : store_in_window (<[dbuff := advance inlen d]> (dbuffs st))).
    { apply map_Forall_insert_2; [ | exact Hall ].
      apply in_window_advance; [ exact (Hall _ _ Hd) | lia ]. }
    destruct (parent d) as [q | ].
    + destruct (fr_dbuff_memcpy_in fuel _ q in_ inlen) as [[st'' r'] | | | ] eqn:Hrec;
        try discriminate.
      cbn in Hrun. injection Hrun as <- _.
      eapply IH; [ | exact Hrec ]. exact Hall'.
    + injection Hrun as <- _. exact Hall'.
Qed.

(** The seeks keep every cursor of the store in its window. *)
Lemma seek_in_window (st st' : state) (dbuff r : Z) :
  store_in_window (dbuffs st) ->
  fr_dbuff_start st dbuff = Ok (st', r) \/ fr_dbuff_end st dbuff = Ok (st', r) ->
  store_in_window (dbuffs st').
Proof.
  intros Hall. unfold fr_dbuff_start, fr_dbuff_end, deref.
  destruct (dbuffs st !! dbuff) as [d | ] eqn:Hd; cbn;
    [ | intros [H | H]; discriminate ].
  pose proof (Hall _ _ Hd) as Hw. unfold in_window in Hw. bools.
  intros [[= <- _] | [= <- _]]; cbn; (apply map_Forall_insert_2; [ | exact Hall ]);
    unfold in_window; cbn; apply andb_true_intro; split; apply Z.leb_le; lia.
Qed.

(** X19.  Writes and seeks never take a cursor out of its window: in a store
    whose cursors all satisfy [start <= p <= end], they still do after any
    sequence of these operations.  What breaks the invariant is a cursor
    that is derived outside of it ([reserve_init_exceeds]). *)
Lemma run_ops_in_window (fuel : nat) (os : list op) (st st' : state) :
  store_in_window (dbuffs st) ->
  run_ops fuel st os = Ok st' ->
  store_in_window (dbuffs st').
Proof.
  revert st. induction os as [ | o os IH]; intros st Hall; cbn.
  - intros [= <-]. exact Hall.
  - destruct (run_op fuel st o) as [st1 | | | ] eqn:Hop; try discriminate. cbn.
    apply IH. destruct o as [dbuff in_ inlen | dbuff | dbuff]; cbn in Hop.
    + destruct (fr_dbuff_memcpy_in fuel st dbuff in_ (to_size_t inlen))
        as [[st2 r] | | | ] eqn:Hrun; try discriminate.
      cbn in Hop. injection Hop as <-.
      eapply memcpy_in_in_window; [ | exact Hall | exact Hrun ].
      apply to_size_t_range.
    + destruct (fr_dbuff_start st dbuff) as [[st2 r] | | | ] eqn:Hrun; try discriminate.
      cbn in Hop. injection Hop as <-.
      eapply seek_in_window; [ exact Hall | left; exact Hrun ].
    + destruct (fr_dbuff_end st dbuff) as [[st2 r] | | | ] eqn:Hrun; try discriminate.
      cbn in Hop. injection Hop as <-.
      eapply seek_in_window; [ exact Hall | right; exact Hrun ].
Qed.

(** ** The scenarios of the specification *)

(** Scenario 1: three bytes written through the root cursor. *)
Example scenario_basic_write :
  ('(st', r) ← fr_dbuff_memcpy_in 1 st_root 5000 [Byte.x01; Byte.x02; Byte.x03] 3;
   Ok (r, fr_dbuff_used <$> dbuffs st' !! 5000,
          fr_dbuff_freespace <$> dbuffs st' !! 5000,
          mem st' !! 1000, mem st' !! 1001, mem st' !! 1002, mem st' !! 1003))
  = Ok (3, Some 3, Some 7,
        Some Byte.x01, Some Byte.x02, Some Byte.x03, Some Byte.xff).
Proof. vm_compute. reflexivity. Qed.

(** Scenario 3: six bytes written through a child that reserves four, then
    four bytes through the root. *)
Example scenario_reservation :
  ('(st1, child) ← FR_DBUFF_RESERVE st_root 5000 4 6000;
   '(st2, r2) ← fr_dbuff_memcpy_in 2 st1 child (replicate 6 Byte.xaa) 6;
   '(st3, r3) ← fr_dbuff_memcpy_in 1 st2 5000 (replicate 4 Byte.xbb) 4;
   Ok (fr_dbuff_freespace <$> dbuffs st1 !! child, r2,
       fr_dbuff_used <$> dbuffs st2 !! 5000,
       fr_dbuff_freespace <$> dbuffs st2 !! 5000, r3,
       mem st3 !! 1005, mem st3 !! 1006, mem st3 !! 1009))
  = Ok (Some 6, 6, Some 6, Some 4, 4,
        Some Byte.xaa, Some Byte.xbb, Some Byte.xbb).
Proof. vm_compute. reflexivity. Qed.

(** Scenario 6: four literal bytes; the macro falls through. *)
Example scenario_bytes_in :
  let st := {| dbuffs := {[ 5000 := mk_dbuff 1000 1004 1000 false None ]};
               mem := region10 |} in
  ('(st', c) ← FR_DBUFF_BYTES_IN 1 st 5000 [Byte.xde; Byte.xad; Byte.xbe; Byte.xef];
   Ok (c, mem st' !! 1000, mem st' !! 1001, mem st' !! 1002, mem st' !! 1003))
  = Ok (Fallthrough, Some Byte.xde, Some Byte.xad, Some Byte.xbe, Some Byte.xef).
Proof. vm_compute. reflexivity. Qed.

(** * Further properties of the code *)

(** ** Length queries *)

(** X1.  On a cursor with [start <= p <= end] and a valid window length the
    three length queries do not wrap and add up: used plus free space is the
    length of the window. *)
Theorem used_plus_freespace (d : fr_dbuff_t) :
  dbuff_ok d = true ->
  fr_dbuff_used d + fr_dbuff_freespace d = fr_dbuff_len d
  /\ fr_dbuff_used d = p d - start d
  /\ fr_dbuff_freespace d = end_ d - p d
  /\ 0 <= fr_dbuff_used d
  /\ 0 <= fr_dbuff_freespace d
  /\ fr_dbuff_len d <= SSIZE_MAX.
Proof.
  intros Hok. unfold dbuff_ok, in_window in Hok. bools.
  unfold fr_dbuff_used, fr_dbuff_freespace, fr_dbuff_len.
  rewrite !to_size_t_id by (unfold SSIZE_MAX, SIZE_MOD in *; lia).
  repeat split; lia.
Qed.

Lemma used_plus_freespace_witness :
  let d := mk_dbuff 1000 1010 1004 false None in
  fr_dbuff_used d + fr_dbuff_freespace d = fr_dbuff_len d
  /\ fr_dbuff_used d = p d - start d
  /\ fr_dbuff_freespace d = end_ d - p d
  /\ 0 <= fr_dbuff_used d
  /\ 0 <= fr_dbuff_freespace d
  /\ fr_dbuff_len d <= SSIZE_MAX.
Proof.
  apply (used_plus_freespace (mk_dbuff 1000 1010 1004 false None)). reflexivity.
Defined.

(** ** Initialisation followed by writes *)

(** X2.  A cursor initialised with a length over an object whose [parent] is
    null takes any write of at most that many bytes: the write returns the
    number of bytes, they are stored from [start] on, and afterwards [used]
    is that number and the free space is the rest of the length. *)
Theorem init_then_write (fuel : nat) (st : state) (out start' len : Z)
  (d0 : fr_dbuff_t) (in_ : list Byte.byte) (inlen : Z) :
  dbuffs st !! out = Some d0 ->
  parent d0 = None ->
  0 <= len <= SSIZE_MAX ->
  0 <= inlen <= len ->
  inlen <= Z.of_nat (length in_) ->
  exists st1 st2 d,
    fr_dbuff_init st out start' false (ByLen len) = Ok st1
    /\ fr_dbuff_memcpy_in (S fuel) st1 out in_ inlen = Ok (st2, inlen)
    /\ dbuffs st2 !! out = Some d
    /\ start d = start'
    /\ fr_dbuff_used d = inlen
    /\ fr_dbuff_freespace d = len - inlen
    /\ fr_dbuff_len d = len
    /\ mem st2 = memcpy_bytes (mem st) start' (take (Z.to_nat inlen) in_).
Proof.
  intros Hd Hp Hlen Hin Hsrc.
  unfold fr_dbuff_init, _fr_dbuff_init, deref. rewrite Hd. cbn.
  rewrite (to_size_t_id len) by (unfold SSIZE_MAX, SIZE_MOD in *; lia).
  replace (start' + len <? start') with false by (symmetry; apply Z.ltb_ge; lia).
  rewrite Hp.
  set (d1 := {| start := start'; end_ := start' + len; p := start';
                is_const := false; parent := None |}).
  assert (Hfs : fr_dbuff_freespace d1 = len).
  { unfold fr_dbuff_freespace, d1. cbn.
    replace (start' + len - start') with len by lia.
    apply to_size_t_id. unfold SSIZE_MAX, SIZE_MOD in *. lia. }
  eexists _, _, (advance inlen d1). split; [ reflexivity | ].
  split.
  - apply (memcpy_in_chain [] (S fuel) (set_dbuff st out d1) out d1);
      try assumption; try reflexivity; try (cbn; lia).
    + cbn. apply lookup_insert_eq.
    + cbn. rewrite lookup_insert_eq.
      unfold dbuff_ok, in_window, d1. cbn.
      repeat (apply andb_true_intro; split); try reflexivity; apply Z.leb_le; lia.
  - cbn. rewrite lookup_alter_eq, lookup_insert_eq. cbn.
    unfold fr_dbuff_used, fr_dbuff_freespace, fr_dbuff_len. cbn.
    replace (start' + inlen - start') with inlen by lia.
    replace (start' + len - (start' + inlen)) with (len - inlen) by lia.
    replace (start' + len - start') with len by lia.
    rewrite !to_size_t_id by (unfold SSIZE_MAX, SIZE_MOD in *; lia).
    repeat split.
Qed.

Lemma init_then_write_witness :
  exists st1 st2 d,
    fr_dbuff_init st_blank 5000 1000 false (ByLen 10) = Ok st1
    /\ fr_dbuff_memcpy_in 1 st1 5000 [Byte.x01; Byte.x02; Byte.x03] 3 = Ok (st2, 3)
    /\ dbuffs st2 !! 5000 = Some d
    /\ start d = 1000
    /\ fr_dbuff_used d = 3
    /\ fr_dbuff_freespace d = 10 - 3
    /\ fr_dbuff_len d = 10
    /\ mem st2
       = memcpy_bytes (mem st_blank) 1000
           (take (Z.to_nat 3) [Byte.x01; Byte.x02; Byte.x03]).
Proof.
  apply (init_then_write 0 st_blank 5000 1000 10 blank
           [Byte.x01; Byte.x02; Byte.x03] 3).
  - reflexivity.
  - reflexivity.
  - vm_compute. split; discriminate.
  - lia.
  - cbn. lia.
Defined.

(** X3.  Initialised with an end pointer that precedes the start, the cursor
    is empty ([end] is set to [start]): its length and free space are 0, and
    a write of [inlen > 0] bytes returns [- inlen] and changes nothing. *)
Theorem init_reversed_empty (fuel : nat) (st : state) (out start' e : Z)
  (d0 : fr_dbuff_t) (in_ : list Byte.byte) (inlen : Z) :
  dbuffs st !! out = Some d0 ->
  e < start' ->
  0 < inlen <= 2 ^ 63 ->
  exists st1 d,
    fr_dbuff_init st out start' false (ByEnd e) = Ok st1
    /\ dbuffs st1 !! out = Some d
    /\ end_ d = start'
    /\ fr_dbuff_len d = 0
    /\ fr_dbuff_freespace d = 0
    /\ fr_dbuff_memcpy_in (S fuel) st1 out in_ inlen = Ok (st1, - inlen).
Proof.
  intros Hd He Hin.
  set (d1 := {| start := start'; end_ := start'; p := start';
                is_const := false; parent := parent d0 |}).
  assert (Hinit : fr_dbuff_init st out start' false (ByEnd e)
                  = Ok (set_dbuff st out d1)).
  { unfold fr_dbuff_init, _fr_dbuff_init, deref. rewrite Hd. cbn.
    replace (e <? start') with true by (symmetry; apply Z.ltb_lt; lia).
    reflexivity. }
  assert (Hz : to_size_t (start' - start') = 0)
    by (rewrite Z.sub_diag; reflexivity).
  exists (set_dbuff st out d1), d1. split; [ exact Hinit | ].
  split; [ cbn; apply lookup_insert_eq | ].
  split; [ reflexivity | ].
  split; [ exact Hz | ].
  split; [ exact Hz | ].
  rewrite (memcpy_in_too_long fuel (set_dbuff st out d1) out d1 in_ inlen).
  - unfold fr_dbuff_freespace, d1. cbn [start end_ p]. rewrite Hz.
    rewrite to_ssize_t_id by (unfold SSIZE_MAX; lia). reflexivity.
  - cbn. apply lookup_insert_eq.
  - reflexivity.
  - unfold fr_dbuff_freespace, d1. cbn [start end_ p]. rewrite Hz. lia.
Qed.

Lemma init_reversed_empty_witness :
  exists st1 d,
    fr_dbuff_init st_blank 5000 1000 false (ByEnd 990) = Ok st1
    /\ dbuffs st1 !! 5000 = Some d
    /\ end_ d = 1000
    /\ fr_dbuff_len d = 0
    /\ fr_dbuff_freespace d = 0
    /\ fr_dbuff_memcpy_in 1 st1 5000 [Byte.x01] 1 = Ok (st1, - 1).
Proof.
  apply (init_reversed_empty 0 st_blank 5000 1000 990 blank [Byte.x01] 1).
  - reflexivity.
  - lia.
  - lia.
Defined.

(** ** What a call of [fr_dbuff_memcpy_in] can change *)

Lemma advance_advance (j k : Z) (d : fr_dbuff_t) :
  advance k (advance j d) = advance (j + k) d.
Proof. unfold advance. cbn. f_equal. lia. Qed.

(** X4.  A call that returns, with a shortfall or not, creates and removes
    no cursor and changes no [start], [end], [is_const] or [parent]: each
    cursor of the store is the cursor it was with [p] moved forward by some
    [k >= 0]. *)
Theorem memcpy_in_moves_forward (fuel : nat) (st st' : state) (dbuff : Z)
  (in_ : list Byte.byte) (inlen r : Z) :
  0 <= inlen ->
  fr_dbuff_memcpy_in fuel st dbuff in_ inlen = Ok (st', r) ->
  forall x, exists k, 0 <= k /\ dbuffs st' !! x = advance k <$> dbuffs st !! x.
Proof.
  intros Hlen. revert st st' dbuff r.
  induction fuel as [ | fuel IH]; intros st st' dbuff r Hrun x; [ discriminate | ].
  assert (Hsame : exists k, 0 <= k /\ dbuffs st !! x = advance k <$> dbuffs st !! x).
  { exists 0. split; [ lia | ].
    destruct (dbuffs st !! x); cbn; [ rewrite advance_zero | ]; reflexivity. }
  cbn [fr_dbuff_memcpy_in] in Hrun. unfold deref in Hrun.
  destruct (dbuffs st !! dbuff) as [d | ] eqn:Hd; [ cbn in Hrun | discriminate ].
  destruct (is_const d); [ discriminate | cbn in Hrun ].
  destruct (inlen >? fr_dbuff_freespace d).
  { injection Hrun as <- _. exact Hsame. }
  destruct (memcpy (mem st) (p d) in_ inlen) as [m' | | | ]; try discriminate.
  cbn in Hrun.
  assert (Hone : exists k, 0 <= k
            /\ <[dbuff := advance inlen d]> (dbuffs st) !! x
               = advance k <$> dbuffs st !! x).
  { destruct (decide (dbuff = x)) as [<- | Hne].
    - exists inlen. rewrite lookup_insert_eq, Hd. split; [ lia | reflexivity ].
    - rewrite lookup_insert_ne by assumption. exact Hsame. }
  destruct (parent d) as [q | ].
  - destruct (fr_dbuff_memcpy_in fuel _ q in_ inlen) as [[st'' r'] | | | ] eqn:Hrec;
      try discriminate.
    cbn in Hrun. injection Hrun as <- _.
    destruct (IH _ _ _ _ Hrec x) as (k2 & Hk2 & E2). cbn [dbuffs] in E2.
    destruct Hone as (k1 & Hk1 & E1).
    exists (k1 + k2). split; [ lia | ].
    rewrite E2, E1. destruct (dbuffs st !! x); cbn; [ | reflexivity ].
    rewrite advance_advance. reflexivity.
  - injection Hrun as <- _. exact Hone.
Qed.

Lemma memcpy_in_moves_forward_witness :
  (exists k, 0 <= k
     /\ dbuffs st_copy_written !! 5000 = advance k <$> dbuffs st_copied !! 5000)
  /\ (exists k, 0 <= k
     /\ dbuffs st_copy_written !! 6000 = advance k <$> dbuffs st_copied !! 6000).
Proof.
  assert (Hrun : fr_dbuff_memcpy_in 2 st_copied 7000 [Byte.x0a; Byte.x0b; Byte.x0c] 3
                 = Ok (st_copy_written, 3)) by (vm_compute; reflexivity).
  split;
    apply (memcpy_in_moves_forward 2 st_copied st_copy_written 7000
             [Byte.x0a; Byte.x0b; Byte.x0c] 3 3 ltac:(lia) Hrun).
Defined.

(** X5.  In a store whose cursors all have [start <= p <= end], a call that
    returns has stored bytes only inside the free part of a cursor: an
    address whose byte differs afterwards lies in [p, end) of a cursor of
    the store. *)
Theorem memcpy_in_stays_in_windows (fuel : nat) (st st' : state) (dbuff : Z)
  (in_ : list Byte.byte) (inlen r a : Z) :
  0 <= inlen ->
  store_in_window (dbuffs st) ->
  fr_dbuff_memcpy_in fuel st dbuff in_ inlen = Ok (st', r) ->
  mem st' !! a <> mem st !! a ->
  exists x d, dbuffs st !! x = Some d /\ p d <= a < end_ d.
Proof.
  intros Hlen. revert st st' dbuff r.
  induction fuel as [ | fuel IH]; intros st st' dbuff r Hall Hrun Hdiff; [ discriminate | ].
  cbn [fr_dbuff_memcpy_in] in Hrun. unfold deref in Hrun.
  destruct (dbuffs st !! dbuff) as [d | ] eqn:Hd; [ cbn in Hrun | discriminate ].
  destruct (is_const d); [ discriminate | cbn in Hrun ].
  destruct (inlen >? fr_dbuff_freespace d) eqn:E.
  { injection Hrun as <- _. contradiction. }
  unfold memcpy in Hrun.
  destruct (inlen <=? Z.of_nat (length in_)) eqn:Hsrc; [ | discriminate ].
  cbn in Hrun. rewrite Z.gtb_ltb in E. apply Z.ltb_ge in E. apply Z.leb_le in Hsrc.
  pose proof (Hall _ _ Hd) as Hw. unfold in_window in Hw. bools.
  assert (Hfs : fr_dbuff_freespace d <= end_ d - p d).
  { unfold fr_dbuff_freespace, to_size_t, SIZE_MOD. apply Z.mod_le; lia. }
  destruct (decide (p d <= a < p d + inlen)) as [Hin | Hout].
  { exists dbuff, d. split; [ exact Hd | lia ]. }
  assert (Hm1 : memcpy_bytes (mem st) (p d) (take (Z.to_nat inlen) in_) !! a
                = mem st !! a).
  { apply memcpy_bytes_lookup_out. rewrite length_take. lia. }
  assert (Hall' : store_in_window (<[dbuff := advance inlen d]> (dbuffs st))).
  { apply map_Forall_insert_2; [ | exact Hall ].
    apply in_window_advance; [ exact (Hall _ _ Hd) | lia ]. }
  destruct (parent d) as [q | ].
  - destruct (fr_dbuff_memcpy_in fuel _ q in_ inlen) as [[st'' r'] | | | ] eqn:Hrec;
      try discriminate.
    cbn in Hrun. injection Hrun as <- _.
    destruct (IH {| dbuffs := <[dbuff := advance inlen d]> (dbuffs st);
                    mem := memcpy_bytes (mem st) (p d) (take (Z.to_nat inlen) in_) |}
                 _ _ _ Hall' Hrec) as (x & d1 & Hx & Ha).
    { cbn [mem]. rewrite Hm1. exact Hdiff. }
    cbn [dbuffs] in Hx. destruct (decide (dbuff = x)) as [<- | Hne].
    + rewrite lookup_insert_eq in Hx. injection Hx as <-. cbn in Ha.
      exists dbuff, d. split; [ exact Hd | lia ].
    + rewrite lookup_insert_ne in Hx by assumption. exists x, d1. split; assumption.
  - injection Hrun as <- _. cbn [mem] in Hdiff. rewrite Hm1 in Hdiff. contradiction.
Qed.

Lemma memcpy_in_stays_in_windows_witness :
  exists x d, dbuffs st_copied !! x = Some d /\ p d <= 1005 < end_ d.
Proof.
  apply (memcpy_in_stays_in_windows 2 st_copied st_copy_written 7000
           [Byte.x0a; Byte.x0b; Byte.x0c] 3 3 1005).
  - lia.
  - unfold store_in_window. apply map_Forall_to_list. vm_compute.
    repeat constructor.
  - vm_compute. reflexivity.
  - vm_compute. discriminate.
Defined.

(** A call through a cursor touches the cursors of its chain only. *)
Lemma memcpy_in_off_chain (l : list Z) (fuel : nat) (st st' : state) (dbuff : Z)
  (in_ : list Byte.byte) (inlen r x : Z) :
  chain (dbuffs st) dbuff l = true ->
  fr_dbuff_memcpy_in fuel st dbuff in_ inlen = Ok (st', r) ->
  x ∉ dbuff :: l ->
  dbuffs st' !! x = dbuffs st !! x.
Proof.
  revert fuel st st' dbuff r.
  induction l as [ | q l IH]; intros fuel st st' dbuff r Hch Hrun Hx;
    (destruct fuel as [ | fuel]; [ discriminate | ]);
    pose proof (chain_NoDup _ _ _ Hch) as Hnd;
    [ apply chain_nil_inv in Hch as (d & Hd & Hp)
    | apply chain_cons_inv in Hch as (d & Hd & Hp & Hch) ];
    cbn [fr_dbuff_memcpy_in] in Hrun; unfold deref in Hrun; rewrite Hd in Hrun;
    cbn in Hrun; (destruct (is_const d); [ discriminate | ]); cbn in Hrun;
    (destruct (inlen >? fr_dbuff_freespace d);
     [ injection Hrun as <- _; reflexivity | ]);
    (destruct (memcpy (mem st) (p d) in_ inlen) as [m' | | | ]; try discriminate);
    cbn in Hrun; rewrite Hp in Hrun;
    pose proof Hx as Hne; apply not_elem_of_cons in Hne as [Hne Hxl].
  - injection Hrun as <- _. cbn. apply lookup_insert_ne. congruence.
  - destruct (fr_dbuff_memcpy_in fuel _ q in_ inlen) as [[st'' r'] | | | ] eqn:Hrec;
      try discriminate.
    cbn in Hrun. injection Hrun as <- _.
    apply NoDup_cons in Hnd as [Hnotin _].
    assert (Hch1 : chain (<[dbuff := advance inlen d]> (dbuffs st)) q l = true)
      by (rewrite chain_insert_frame by assumption; exact Hch).
    rewrite (IH fuel {| dbuffs := <[dbuff := advance inlen d]> (dbuffs st); mem := m' |}
               st'' q r' Hch1 Hrec Hxl).
    cbn. apply lookup_insert_ne. congruence.
Qed.

(** X6.  Propagation goes one way.  A write through the parent [q] of a
    derived cursor [c] leaves [c] as it was, whatever the write returns:
    when the parent advances, the child does not follow. *)
Theorem memcpy_in_parent_leaves_child (l : list Z) (fuel : nat) (st st' : state)
  (c q : Z) (in_ : list Byte.byte) (inlen r : Z) :
  chain (dbuffs st) c (q :: l) = true ->
  fr_dbuff_memcpy_in fuel st q in_ inlen = Ok (st', r) ->
  dbuffs st' !! c = dbuffs st !! c.
Proof.
  intros Hch Hrun.
  pose proof (chain_NoDup _ _ _ Hch) as Hnd. apply NoDup_cons in Hnd as [Hc _].
  apply chain_cons_inv in Hch as (d & _ & _ & Hq).
  exact (memcpy_in_off_chain l fuel st st' q in_ inlen r c Hq Hrun Hc).
Qed.

Lemma memcpy_in_parent_leaves_child_witness :
  dbuffs st_parent_written !! 6000 = dbuffs st_derived !! 6000.
Proof.
  apply (memcpy_in_parent_leaves_child [] 1 st_derived st_parent_written 6000 5000
           [Byte.x0a; Byte.x0b; Byte.x0c] 3 3).
  - reflexivity.
  - vm_compute. reflexivity.
Defined.

(** ** Termination *)

(** X7.  When the parent chain of the cursor ends at a root, the recursion
    ends: with any fuel above the length of the chain the call does not run
    out of fuel, and its outcome does not depend on the fuel. *)
Theorem memcpy_in_fuel (l : list Z) (fuel1 fuel2 : nat) (st : state) (dbuff : Z)
  (in_ : list Byte.byte) (inlen : Z) :
  chain (dbuffs st) dbuff l = true ->
  (length l < fuel1)%nat ->
  (length l < fuel2)%nat ->
  fr_dbuff_memcpy_in fuel1 st dbuff in_ inlen
  = fr_dbuff_memcpy_in fuel2 st dbuff in_ inlen
  /\ fr_dbuff_memcpy_in fuel1 st dbuff in_ inlen <> OutOfFuel.
Proof.
  revert fuel1 fuel2 st dbuff.
  induction l as [ | q l IH]; intros fuel1 fuel2 st dbuff Hch H1 H2;
    (destruct fuel1 as [ | fuel1]; [ cbn in H1; lia | ]);
    (destruct fuel2 as [ | fuel2]; [ cbn in H2; lia | ]);
    pose proof (chain_NoDup _ _ _ Hch) as Hnd;
    [ apply chain_nil_inv in Hch as (d & Hd & Hp)
    | apply chain_cons_inv in Hch as (d & Hd & Hp & Hch) ];
    cbn [fr_dbuff_memcpy_in]; unfold deref; rewrite Hd; cbn;
    (destruct (is_const d); [ split; [ reflexivity | discriminate ] | ]); cbn;
    (destruct (inlen >? fr_dbuff_freespace d);
     [ split; [ reflexivity | discriminate ] | ]);
    unfold memcpy;
    (destruct (inlen <=? Z.of_nat (length in_));
     [ | split; [ reflexivity | discriminate ] ]);
    cbn; rewrite Hp.
  - split; [ reflexivity | discriminate ].
  - apply NoDup_cons in Hnd as [Hnotin _].
    destruct (IH fuel1 fuel2
                {| dbuffs := <[dbuff := advance inlen d]> (dbuffs st);
                   mem := memcpy_bytes (mem st) (p d) (take (Z.to_nat inlen) in_) |} q)
      as [E Hne];
      [ cbn; rewrite chain_insert_frame by assumption; exact Hch
      | cbn in H1; lia | cbn in H2; lia | ].
    rewrite <- E. split; [ reflexivity | ].
    destruct (fr_dbuff_memcpy_in fuel1 _ q in_ inlen) as [[st'' r'] | | | ];
      cbn; congruence.
Qed.

Lemma memcpy_in_fuel_witness :
  fr_dbuff_memcpy_in 3 st_nested 7000 [Byte.x0a; Byte.x0b] 2
  = fr_dbuff_memcpy_in 9 st_nested 7000 [Byte.x0a; Byte.x0b] 2
  /\ fr_dbuff_memcpy_in 3 st_nested 7000 [Byte.x0a; Byte.x0b] 2 <> OutOfFuel.
Proof.
  apply (memcpy_in_fuel [6000; 5000] 3 9 st_nested 7000 [Byte.x0a; Byte.x0b] 2).
  - reflexivity.
  - cbn. lia.
  - cbn. lia.
Defined.

(** X8.  The loop the header warns of.  [FR_DBUFF_RESERVE] stored back into
    the object it was given makes the cursor its own parent, and a write of
    no bytes through it then recurses without end: it runs out of any
    fuel. *)
Theorem reserve_in_place_loops (st : state) (dbuff reserve : Z) (d : fr_dbuff_t) :
  dbuffs st !! dbuff = Some d ->
  is_const d = false ->
  exists st1 d1,
    FR_DBUFF_RESERVE st dbuff reserve dbuff = Ok (st1, dbuff)
    /\ dbuffs st1 !! dbuff = Some d1
    /\ parent d1 = Some dbuff
    /\ forall (fuel : nat) (in_ : list Byte.byte),
         fr_dbuff_memcpy_in fuel st1 dbuff in_ 0 = OutOfFuel.
Proof.
  intros Hd Hc. unfold FR_DBUFF_RESERVE, deref. rewrite Hd. cbn.
  eexists _, _. split; [ reflexivity | ].
  split; [ apply lookup_insert_eq | ].
  split; [ reflexivity | ].
  set (d1 := reserve_init dbuff d reserve).
  set (st1 := set_dbuff st dbuff d1).
  assert (Hd1 : dbuffs st1 !! dbuff = Some d1) by apply lookup_insert_eq.
  intros fuel in_. induction fuel as [ | fuel IH]; [ reflexivity | ].
  rewrite (memcpy_in_step fuel st1 dbuff d1);
    [ | exact Hd1 | exact Hc
      | pose proof (to_size_t_range (end_ d1 - p d1)); unfold fr_dbuff_freespace; lia
      | lia ].
  cbn zeta. rewrite advance_zero, (insert_id _ _ _ Hd1).
  replace {| dbuffs := dbuffs st1;
             mem := memcpy_bytes (mem st1) (p d1) (take (Z.to_nat 0) in_) |}
    with st1 by reflexivity.
  change (parent d1) with (Some dbuff). cbv beta iota. rewrite IH. reflexivity.
Qed.

Lemma reserve_in_place_loops_witness :
  exists st1 d1,
    FR_DBUFF_RESERVE st_root 5000 2 5000 = Ok (st1, 5000)
    /\ dbuffs st1 !! 5000 = Some d1
    /\ parent d1 = Some 5000
    /\ forall (fuel : nat) (in_ : list Byte.byte),
         fr_dbuff_memcpy_in fuel st1 5000 in_ 0 = OutOfFuel.
Proof.
  apply (reserve_in_place_loops st_root 5000 2 (mk_dbuff 1000 1010 1000 false None));
    reflexivity.
Defined.

(** ** A shortfall above the first cursor *)

(** X9.  The room is checked cursor by cursor on the way up.  When the
    cursor written through has room for [inlen] bytes but its parent has
    not, the call returns the shortfall of the parent, a negative number,
    after the bytes were stored and the child was advanced: [inlen] is
    positive, the child's [p] has grown by it, the byte [i] of the source is
    at the child's old [p + i], and the parent is where it was.  A negative
    result does not mean that nothing changed. *)
Theorem memcpy_in_ancestor_shortfall (fuel : nat) (st : state) (c q : Z)
  (dc dq : fr_dbuff_t) (in_ : list Byte.byte) (inlen : Z) :
  dbuffs st !! c = Some dc ->
  dbuffs st !! q = Some dq ->
  parent dc = Some q ->
  is_const dc = false ->
  is_const dq = false ->
  inlen <= fr_dbuff_freespace dc ->
  inlen <= Z.of_nat (length in_) ->
  fr_dbuff_freespace dq < inlen ->
  inlen - fr_dbuff_freespace dq <= 2 ^ 63 ->
  exists st',
    fr_dbuff_memcpy_in (S (S fuel)) st c in_ inlen
    = Ok (st', fr_dbuff_freespace dq - inlen)
    /\ fr_dbuff_freespace dq - inlen < 0
    /\ 0 < inlen
    /\ dbuffs st' !! c
       = Some {| start := start dc; end_ := end_ dc; p := p dc + inlen;
                 is_const := is_const dc; parent := parent dc |}
    /\ dbuffs st' !! q = Some dq
    /\ (forall (i : nat) (b : Byte.byte),
          in_ !! i = Some b -> Z.of_nat i < inlen ->
          mem st' !! (p dc + Z.of_nat i) = Some b)
    /\ (forall a, a < p dc \/ p dc + inlen <= a -> mem st' !! a = mem st !! a).
Proof.
  intros Hc Hq Hp Hcc Hcq Hfit Hsrc Hshort Hrep.
  assert (Hne : c <> q) by (intros ->; assert (dc = dq) by congruence; subst; lia).
  pose proof (to_size_t_range (end_ dq - p dq)) as Hfs.
  fold (fr_dbuff_freespace dq) in Hfs.
  exists {| dbuffs := <[c := advance inlen dc]> (dbuffs st);
            mem := memcpy_bytes (mem st) (p dc) (take (Z.to_nat inlen) in_) |}.
  split.
  { rewrite (memcpy_in_step (S fuel) st c dc) by assumption. cbn zeta. rewrite Hp.
    rewrite (memcpy_in_too_long fuel _ q dq);
      [ | cbn; rewrite lookup_insert_ne by assumption; exact Hq | exact Hcq | lia ].
    cbn. rewrite to_ssize_t_to_size_t_id by apply to_ssize_t_range.
    rewrite shortfall_negative by lia. reflexivity. }
  cbn [dbuffs mem].
  split; [ lia | ]. split; [ lia | ].
  split; [ apply lookup_insert_eq | ].
  split; [ rewrite lookup_insert_ne by assumption; exact Hq | ].
  split.
  - intros i b Hi Hlt. apply memcpy_bytes_lookup_in.
    rewrite lookup_take_lt by lia. exact Hi.
  - intros a Ha. apply memcpy_bytes_lookup_out. rewrite length_take. lia.
Qed.

(** The child of [st_desync] has four bytes of room, the root three: four
    bytes through the child return -1, yet the child has moved from 1004 to
    1008 and the bytes are in memory; the root is still at 1007. *)
Lemma memcpy_in_ancestor_shortfall_witness :
  exists st',
    fr_dbuff_memcpy_in 2 st_desync 6000 [Byte.x0a; Byte.x0b; Byte.x0c; Byte.x0d] 4
    = Ok (st', -1)
    /\ dbuffs st' !! 6000 = Some (mk_dbuff 1000 1008 1008 false (Some 5000))
    /\ dbuffs st' !! 5000 = Some (mk_dbuff 1000 1010 1007 false None)
    /\ mem st' !! 1004 = Some Byte.x0a
    /\ mem st' !! 1007 = Some Byte.x0d
    /\ mem st' !! 1008 = Some Byte.xff.
Proof.
  destruct (memcpy_in_ancestor_shortfall 0 st_desync 6000 5000
              (mk_dbuff 1000 1008 1004 false (Some 5000))
              (mk_dbuff 1000 1010 1007 false None)
              [Byte.x0a; Byte.x0b; Byte.x0c; Byte.x0d] 4)
    as (st' & Hrun & _ & _ & Hc & Hq & Hbytes & Hrest);
    try reflexivity; try (vm_compute; discriminate).
  exists st'. split; [ exact Hrun | ].
  split; [ exact Hc | ]. split; [ exact Hq | ].
  split; [ apply (Hbytes 0%nat Byte.x0a); [ reflexivity | cbn; lia ] | ].
  split; [ apply (Hbytes 3%nat Byte.x0d); [ reflexivity | cbn; lia ] | ].
  rewrite (Hrest 1008) by (cbn; lia). reflexivity.
Defined.

(** ** Consecutive writes *)

Lemma memcpy_bytes_app (l1 l2 : list Byte.byte) (m : gmap Z Byte.byte) (dst : Z) :
  memcpy_bytes m dst (l1 ++ l2)
  = memcpy_bytes (memcpy_bytes m dst l1) (dst + Z.of_nat (length l1)) l2.
Proof.
  revert m dst. induction l1 as [ | b l1 IH]; intros m dst; cbn [app memcpy_bytes length].
  - replace (dst + Z.of_nat 0) with dst by lia. reflexivity.
  - rewrite IH. f_equal. lia.
Qed.

Lemma advance_all_add (j k : Z) (l : list Z) (m : gmap Z fr_dbuff_t) :
  NoDup l ->
  advance_all k l (advance_all j l m) = advance_all (j + k) l m.
Proof.
  intros Hnd. apply map_eq. intros x. destruct (decide (x ∈ l)) as [Hin | Hout].
  - rewrite !advance_all_lookup_in by assumption.
    destruct (m !! x); cbn; [ rewrite advance_advance | ]; reflexivity.
  - rewrite !advance_all_lookup_notin by assumption. reflexivity.
Qed.

(** X10.  Two writes in a row are one write of the two sources joined.
    Along a chain that satisfies the invariants, with room for both
    sources, writing [in1] and then [in2] gives the state that writing
    [in1 ++ in2] gives, and the two results add up to its result. *)
Theorem memcpy_in_twice (l : list Z) (fuel : nat) (st : state) (dbuff : Z)
  (d : fr_dbuff_t) (in1 in2 : list Byte.byte) :
  dbuffs st !! dbuff = Some d ->
  chain_inv (dbuffs st) dbuff l = true ->
  is_const d = false ->
  Z.of_nat (length in1) + Z.of_nat (length in2) <= fr_dbuff_freespace d ->
  (length l < fuel)%nat ->
  ('(st1, r1) ← fr_dbuff_memcpy_in fuel st dbuff in1 (Z.of_nat (length in1));
   '(st2, r2) ← fr_dbuff_memcpy_in fuel st1 dbuff in2 (Z.of_nat (length in2));
   Ok (st2, r1 + r2))
  = fr_dbuff_memcpy_in fuel st dbuff (in1 ++ in2)
      (Z.of_nat (length in1) + Z.of_nat (length in2)).
Proof.
  intros Hd Hinv Hc Hroom Hfuel.
  pose proof (chain_NoDup _ _ _ (chain_inv_chain _ _ _ Hinv)) as Hnd.
  pose proof (chain_inv_head_ok _ _ _ _ Hinv Hd) as Hok.
  destruct (freespace_ok d Hok) as [Hfs Hrange].
  set (n1 := Z.of_nat (length in1)) in *. set (n2 := Z.of_nat (length in2)) in *.
  assert (Hn1 : 0 <= n1) by (unfold n1; lia).
  assert (Hn2 : 0 <= n2) by (unfold n2; lia).
  rewrite (memcpy_in_chain l fuel st dbuff d in1 n1) by (assumption || lia).
  rewrite (memcpy_in_chain l fuel st dbuff d (in1 ++ in2) (n1 + n2));
    [ | assumption | assumption | assumption | lia
      | rewrite length_app; unfold n1, n2; lia | assumption ].
  cbn [mbind result_bind].
  set (m1 := advance_all n1 (dbuff :: l) (dbuffs st)).
  assert (Hd1 : m1 !! dbuff = Some (advance n1 d)).
  { unfold m1. rewrite advance_all_lookup_in
      by (assumption || apply elem_of_cons; left; reflexivity).
    rewrite Hd. reflexivity. }
  assert (Hinv1 : chain_inv m1 dbuff l = true).
  { apply (chain_inv_advance n1 l (dbuffs st) m1 dbuff d);
      [ | exact Hd | lia | exact Hinv ].
    intros x Hx. apply advance_all_lookup_in; assumption. }
  rewrite (memcpy_in_chain l fuel _ dbuff (advance n1 d) in2 n2);
    [ | exact Hd1 | exact Hinv1 | exact Hc
      | unfold fr_dbuff_freespace; cbn [advance end_ p];
        rewrite to_size_t_id by (unfold SSIZE_MAX, SIZE_MOD in *; lia); lia
      | unfold n2; lia | assumption ].
  cbn [mbind result_bind dbuffs mem advance p]. unfold m1.
  rewrite advance_all_add by assumption.
  unfold n1 at 2, n2 at 2.
  rewrite !firstn_all2 by (rewrite ?length_app; lia).
  replace (take (Z.to_nat (n1 + n2)) (in1 ++ in2)) with (in1 ++ in2)
    by (symmetry; apply firstn_all2; rewrite length_app; unfold n1, n2; lia).
  rewrite memcpy_bytes_app. reflexivity.
Qed.

Lemma memcpy_in_twice_witness :
  ('(st1, r1) ← fr_dbuff_memcpy_in 3 st_nested 7000 [Byte.x0a; Byte.x0b]
                   (Z.of_nat (length [Byte.x0a; Byte.x0b]));
   '(st2, r2) ← fr_dbuff_memcpy_in 3 st1 7000 [Byte.x0c]
                   (Z.of_nat (length [Byte.x0c]));
   Ok (st2, r1 + r2))
  = fr_dbuff_memcpy_in 3 st_nested 7000 ([Byte.x0a; Byte.x0b] ++ [Byte.x0c])
      (Z.of_nat (length [Byte.x0a; Byte.x0b]) + Z.of_nat (length [Byte.x0c])).
Proof.
  apply (memcpy_in_twice [6000; 5000] 3 st_nested 7000
           (mk_dbuff 1000 1004 1000 false (Some 6000))
           [Byte.x0a; Byte.x0b] [Byte.x0c]).
  - reflexivity.
  - vm_compute. reflexivity.
  - reflexivity.
  - vm_compute. discriminate.
  - cbn. lia.
Defined.

(** ** What a reservation guarantees *)

(** A call along a chain that satisfies the invariants either leaves the
    state as it was or advances the whole chain. *)
Lemma memcpy_in_chain_cases (l : list Z) (fuel : nat) (st st' : state) (dbuff : Z)
  (d : fr_dbuff_t) (in_ : list Byte.byte) (inlen r : Z) :
  dbuffs st !! dbuff = Some d ->
  chain_inv (dbuffs st) dbuff l = true ->
  0 <= inlen ->
  (length l < fuel)%nat ->
  fr_dbuff_memcpy_in fuel st dbuff in_ inlen = Ok (st', r) ->
  st' = st
  \/ (inlen <= fr_dbuff_freespace d
      /\ dbuffs st' = advance_all inlen (dbuff :: l) (dbuffs st)).
Proof.
  intros Hd Hinv Hlen Hfuel Hrun. pose proof Hrun as Hrun'.
  destruct fuel as [ | fuel]; [ discriminate | ].
  cbn [fr_dbuff_memcpy_in] in Hrun'. unfold deref in Hrun'. rewrite Hd in Hrun'.
  cbn in Hrun'.
  destruct (is_const d) eqn:Hc; [ discriminate | cbn in Hrun' ].
  destruct (inlen >? fr_dbuff_freespace d) eqn:E.
  { injection Hrun' as <- _. left. reflexivity. }
  unfold memcpy in Hrun'.
  destruct (inlen <=? Z.of_nat (length in_)) eqn:Hsrc; [ | discriminate ].
  rewrite Z.gtb_ltb in E. apply Z.ltb_ge in E. apply Z.leb_le in Hsrc.
  rewrite (memcpy_in_chain l (S fuel) st dbuff d in_ inlen) in Hrun
    by (assumption || lia).
  injection Hrun as <- _. right. split; [ exact E | reflexivity ].
Qed.

Lemma reserved_write (reserve : Z) (l : list Z) (fuel : nat) (st st' : state)
  (lit dbuff : Z) (in_ : list Byte.byte) (inlen r : Z) :
  reserved reserve (dbuffs st) lit dbuff l ->
  0 <= inlen ->
  (S (length l) < fuel)%nat ->
  fr_dbuff_memcpy_in fuel st lit in_ inlen = Ok (st', r) ->
  reserved reserve (dbuffs st') lit dbuff l.
Proof.
  intros [Hinv (dc & dp & Hc & Hp & Hpos & Hend)] Hlen Hfuel Hrun.
  destruct (memcpy_in_chain_cases (dbuff :: l) fuel st st' lit dc in_ inlen r)
    as [-> | [Hfit ->]]; try assumption.
  { split; [ exact Hinv | eauto 8 ]. }
  pose proof (chain_NoDup _ _ _ (chain_inv_chain _ _ _ Hinv)) as Hnd.
  destruct (freespace_ok dc (chain_inv_head_ok _ _ _ _ Hinv Hc)) as [Hfs _].
  assert (Hlook : forall x, x ∈ lit :: dbuff :: l ->
            advance_all inlen (lit :: dbuff :: l) (dbuffs st) !! x
            = advance inlen <$> dbuffs st !! x)
    by (intros x Hx; apply advance_all_lookup_in; assumption).
  split.
  - apply (chain_inv_advance inlen (dbuff :: l) (dbuffs st) _ lit dc);
      [ exact Hlook | exact Hc | lia | exact Hinv ].
  - exists (advance inlen dc), (advance inlen dp).
    rewrite !Hlook, Hc, Hp
      by (repeat (apply elem_of_cons; first [ left; reflexivity | right ])).
    repeat split; cbn; lia.
Qed.

(** X11.  A reservation keeps its bytes.  Let [reserve] bytes, no more than
    are free, be reserved in a cursor whose chain satisfies the invariants.
    Whatever writes are then made through the child, in any number and of
    any sizes, with a shortfall or not, the parent has at least [reserve]
    bytes of free space afterwards. *)
Theorem reserve_keeps_room (l : list Z) (fuel : nat) (st st1 st2 : state)
  (dbuff lit c reserve : Z) (d : fr_dbuff_t) (ws : list (list Byte.byte * Z)) :
  dbuffs st !! dbuff = Some d ->
  chain_inv (dbuffs st) dbuff l = true ->
  dbuffs st !! lit = None ->
  reserve < to_size_t dbuff ->
  0 <= reserve <= fr_dbuff_freespace d ->
  (S (length l) < fuel)%nat ->
  FR_DBUFF_RESERVE st dbuff reserve lit = Ok (st1, c) ->
  run_ops fuel st1 (map (fun w => OpWrite c w.1 w.2) ws) = Ok st2 ->
  exists d', dbuffs st2 !! dbuff = Some d' /\ reserve <= fr_dbuff_freespace d'.
Proof.
  intros Hd Hinv Hlit Hptr Hres Hfuel Hmk Hrun.
  pose proof (chain_inv_head_ok _ _ _ _ Hinv Hd) as Hok.
  destruct (freespace_ok d Hok) as [Hfs Hrange].
  pose proof Hok as Hok'. unfold dbuff_ok, in_window in Hok'. bools.
  unfold FR_DBUFF_RESERVE, deref in Hmk. rewrite Hd in Hmk. cbn in Hmk.
  injection Hmk as <- <-.
  assert (Hne : lit <> dbuff) by congruence.
  assert (Hres1 : reserved reserve (dbuffs (set_dbuff st lit (reserve_init dbuff d reserve)))
                 lit dbuff l).
  { split.
    - apply chain_inv_reserve; (assumption || lia).
    - exists (reserve_init dbuff d reserve), d. cbn [set_dbuff dbuffs].
      rewrite lookup_insert_eq, lookup_insert_ne by assumption.
      rewrite reserve_init_fits by (assumption || lia). cbn.
      repeat split; (assumption || lia). }
  clear Hlit Hinv Hd.
  revert Hres1 Hrun. generalize (set_dbuff st lit (reserve_init dbuff d reserve)).
  induction ws as [ | [in_ inlen] ws IH]; intros s Hs Hrun; cbn in Hrun.
  - injection Hrun as <-.
    destruct Hs as [Hinv (dc & dp & Hc & Hp & Hpos & Hend)].
    exists dp. split; [ exact Hp | ].
    pose proof (chain_inv_head_ok _ _ _ _ Hinv Hc) as Hokc.
    assert (Hokp : dbuff_ok dp = true).
    { cbn [chain_inv] in Hinv. rewrite Hc in Hinv. bools.
      eapply chain_inv_head_ok; eassumption. }
    destruct (freespace_ok dp Hokp) as [Hfsp _].
    unfold dbuff_ok, in_window in Hokc. bools. lia.
  - destruct (fr_dbuff_memcpy_in fuel s lit in_ (to_size_t inlen))
      as [[s' r] | | | ] eqn:Hw; try discriminate.
    cbn in Hrun. apply (IH s'); [ | exact Hrun ].
    eapply reserved_write; [ exact Hs | apply to_size_t_range | exact Hfuel | exact Hw ].
Qed.

Lemma reserve_keeps_room_witness :
  exists d', dbuffs st_reserved4_written !! 5000 = Some d'
    /\ 4 <= fr_dbuff_freespace d'.
Proof.
  apply (reserve_keeps_room [] 2 st_root st_reserved4 st_reserved4_written
           5000 6000 6000 4 (mk_dbuff 1000 1010 1000 false None)
           [(replicate 4 Byte.xaa, 4); (replicate 5 Byte.xaa, 5);
            (replicate 2 Byte.xaa, 2)]).
  - reflexivity.
  - reflexivity.
  - reflexivity.
  - vm_compute. reflexivity.
  - vm_compute. split; discriminate.
  - cbn. lia.
  - reflexivity.
  - vm_compute. reflexivity.
Defined.

(** ** What a limit guarantees *)

(** The cursor [FR_DBUFF_MAX] yields, written out. *)
Lemma FR_DBUFF_MAX_view (st : state) (dbuff max lit : Z) (d : fr_dbuff_t) :
  dbuffs st !! dbuff = Some d ->
  dbuff_ok d = true ->
  0 <= max ->
  (max < fr_dbuff_freespace d -> fr_dbuff_freespace d - max < to_size_t dbuff) ->
  FR_DBUFF_MAX st dbuff max lit
  = if fr_dbuff_freespace d >? max
    then Ok (set_dbuff st lit
               {| start := start d; end_ := p d + max; p := p d;
                  is_const := is_const d; parent := Some dbuff |}, lit)
    else Ok (st, dbuff).
Proof.
  intros Hd Hok Hmax Hptr.
  destruct (freespace_ok d Hok) as [Hfs Hrange].
  pose proof Hok as Hok'. unfold dbuff_ok, in_window in Hok'. bools.
  unfold FR_DBUFF_MAX, deref. rewrite Hd. cbn.
  destruct (fr_dbuff_freespace d >? max) eqn:E; [ | reflexivity ]. bools.
  unfold FR_DBUFF_RESERVE, deref. rewrite Hd. cbn.
  rewrite (to_size_t_id (fr_dbuff_freespace d - max))
    by (unfold SSIZE_MAX, SIZE_MOD in *; lia).
  rewrite reserve_init_fits by (try apply Hptr; lia).
  do 3 f_equal. f_equal; lia.
Qed.

(** X12.  A limit caps the write.  Through the cursor that [FR_DBUFF_MAX]
    yields for a limit [max], a write of more than [max] bytes always falls
    short: it returns [min max freespace - inlen], a negative number, and
    neither the cursors nor the memory change. *)
Theorem FR_DBUFF_MAX_caps_write (fuel : nat) (st : state) (dbuff max lit : Z)
  (d : fr_dbuff_t) (in_ : list Byte.byte) (inlen : Z) :
  dbuffs st !! dbuff = Some d ->
  dbuff_ok d = true ->
  is_const d = false ->
  0 <= max < inlen ->
  inlen <= 2 ^ 63 ->
  (max < fr_dbuff_freespace d -> fr_dbuff_freespace d - max < to_size_t dbuff) ->
  exists st1 c,
    FR_DBUFF_MAX st dbuff max lit = Ok (st1, c)
    /\ fr_dbuff_memcpy_in (S fuel) st1 c in_ inlen
       = Ok (st1, Z.min max (fr_dbuff_freespace d) - inlen)
    /\ Z.min max (fr_dbuff_freespace d) - inlen < 0.
Proof.
  intros Hd Hok Hc Hmax Hrep Hptr.
  destruct (freespace_ok d Hok) as [Hfs Hrange].
  rewrite (FR_DBUFF_MAX_view st dbuff max lit d) by (assumption || lia).
  destruct (fr_dbuff_freespace d >? max) eqn:E; bools.
  - set (child := {| start := start d; end_ := p d + max; p := p d;
                     is_const := is_const d; parent := Some dbuff |}).
    assert (Hcfs : fr_dbuff_freespace child = max).
    { unfold fr_dbuff_freespace, child. cbn [end_ p].
      replace (p d + max - p d) with max by lia.
      apply to_size_t_id. unfold SSIZE_MAX, SIZE_MOD in *. lia. }
    exists (set_dbuff st lit child), lit. split; [ reflexivity | ]. split; [ | lia ].
    rewrite (memcpy_in_too_long fuel (set_dbuff st lit child) lit child in_ inlen);
      [ | cbn; apply lookup_insert_eq | exact Hc | lia ].
    rewrite Hcfs, to_ssize_t_id by (unfold SSIZE_MAX; lia). f_equal. f_equal. lia.
  - exists st, dbuff. split; [ reflexivity | ]. split; [ | lia ].
    rewrite (memcpy_in_too_long fuel st dbuff d in_ inlen Hd Hc) by lia.
    rewrite to_ssize_t_id by (unfold SSIZE_MAX; lia). f_equal. f_equal. lia.
Qed.

(** Scenario 4 of the specification: four bytes through a limit of three. *)
Lemma FR_DBUFF_MAX_caps_write_witness :
  exists st1 c,
    FR_DBUFF_MAX st_root 5000 3 6000 = Ok (st1, c)
    /\ fr_dbuff_memcpy_in 1 st1 c [Byte.x00; Byte.x01; Byte.x02; Byte.x03] 4
       = Ok (st1, Z.min 3 (fr_dbuff_freespace (mk_dbuff 1000 1010 1000 false None)) - 4)
    /\ Z.min 3 (fr_dbuff_freespace (mk_dbuff 1000 1010 1000 false None)) - 4 < 0.
Proof.
  apply (FR_DBUFF_MAX_caps_write 0 st_root 5000 3 6000
           (mk_dbuff 1000 1010 1000 false None)
           [Byte.x00; Byte.x01; Byte.x02; Byte.x03] 4).
  - reflexivity.
  - reflexivity.
  - reflexivity.
  - lia.
  - lia.
  - intros _. vm_compute. reflexivity.
Defined.

(** ** The free-space check and the writing macros *)

(** X13.  [FR_DBUFF_CHECK_FREESPACE] returns from the enclosing function
    exactly when a write of [need] bytes through the cursor would fall
    short, and the value it returns is the value that write returns; when
    [need] bytes fit it falls through. *)
Theorem FR_DBUFF_CHECK_FREESPACE_predicts (fuel : nat) (st : state) (dbuff need : Z)
  (d : fr_dbuff_t) (in_ : list Byte.byte) :
  dbuffs st !! dbuff = Some d ->
  is_const d = false ->
  (need > fr_dbuff_freespace d ->
   exists v, FR_DBUFF_CHECK_FREESPACE st dbuff need = Ok (Return v)
     /\ fr_dbuff_memcpy_in (S fuel) st dbuff in_ need = Ok (st, v)
     /\ (need - fr_dbuff_freespace d <= 2 ^ 63 -> v = fr_dbuff_freespace d - need))
  /\ (need <= fr_dbuff_freespace d ->
      FR_DBUFF_CHECK_FREESPACE st dbuff need = Ok Fallthrough).
Proof.
  intros Hd Hc. unfold FR_DBUFF_CHECK_FREESPACE, deref. rewrite Hd. cbn. split.
  - intros Hneed.
    replace (need >? fr_dbuff_freespace d) with true
      by (symmetry; apply Z.gtb_lt; lia).
    eexists. split; [ reflexivity | ]. rewrite shortfall_value.
    split; [ apply memcpy_in_too_long; assumption | ].
    intros Hrep. apply shortfall_negative; lia.
  - intros Hneed.
    replace (need >? fr_dbuff_freespace d) with false
      by (symmetry; rewrite Z.gtb_ltb; apply Z.ltb_ge; lia).
    reflexivity.
Qed.

Lemma FR_DBUFF_CHECK_FREESPACE_predicts_witness :
  let d := mk_dbuff 1000 1010 1004 false None in
  (7 > fr_dbuff_freespace d ->
   exists v, FR_DBUFF_CHECK_FREESPACE st_derived 5000 7 = Ok (Return v)
     /\ fr_dbuff_memcpy_in 1 st_derived 5000 [] 7 = Ok (st_derived, v)
     /\ (7 - fr_dbuff_freespace d <= 2 ^ 63 -> v = fr_dbuff_freespace d - 7))
  /\ (7 <= fr_dbuff_freespace d ->
      FR_DBUFF_CHECK_FREESPACE st_derived 5000 7 = Ok Fallthrough).
Proof.
  apply (FR_DBUFF_CHECK_FREESPACE_predicts 0 st_derived 5000 7
           (mk_dbuff 1000 1010 1004 false None) []); reflexivity.
Defined.

(** X14.  [FR_DBUFF_BYTES_IN] with room for its bytes, along a chain that
    satisfies the invariants: control falls through, the byte [i] of the
    list is at [p + i] and no other byte of memory differs, and the cursor
    and every ancestor are what they were with [p] increased by the number
    of bytes. *)
Theorem FR_DBUFF_BYTES_IN_fits (l : list Z) (fuel : nat) (st : state) (dbuff : Z)
  (d : fr_dbuff_t) (bytes : list Byte.byte) :
  dbuffs st !! dbuff = Some d ->
  chain_inv (dbuffs st) dbuff l = true ->
  is_const d = false ->
  Z.of_nat (length bytes) <= fr_dbuff_freespace d ->
  (length l < fuel)%nat ->
  exists st',
    FR_DBUFF_BYTES_IN fuel st dbuff bytes = Ok (st', Fallthrough)
    /\ (forall (i : nat) (b : Byte.byte),
          bytes !! i = Some b -> mem st' !! (p d + Z.of_nat i) = Some b)
    /\ (forall a, a < p d \/ p d + Z.of_nat (length bytes) <= a ->
          mem st' !! a = mem st !! a)
    /\ dbuffs st' !! dbuff
       = Some {| start := start d; end_ := end_ d;
                 p := p d + Z.of_nat (length bytes);
                 is_const := is_const d; parent := parent d |}
    /\ (forall a da, a ∈ l -> dbuffs st !! a = Some da ->
          dbuffs st' !! a
          = Some {| start := start da; end_ := end_ da;
                    p := p da + Z.of_nat (length bytes);
                    is_const := is_const da; parent := parent da |})
    /\ (forall a, a ∉ dbuff :: l -> dbuffs st' !! a = dbuffs st !! a).
Proof.
  intros Hd Hinv Hc Hroom Hfuel.
  pose proof (chain_NoDup _ _ _ (chain_inv_chain _ _ _ Hinv)) as Hnd.
  exists {| dbuffs := advance_all (Z.of_nat (length bytes)) (dbuff :: l) (dbuffs st);
            mem := memcpy_bytes (mem st) (p d) bytes |}.
  split.
  { unfold FR_DBUFF_BYTES_IN, FR_DBUFF_MEMCPY_IN.
    rewrite (memcpy_in_chain l fuel st dbuff d bytes) by (assumption || lia).
    cbn [mbind result_bind].
    pose proof (to_size_t_range (Z.of_nat (length bytes))) as Hr.
    replace (to_size_t (Z.of_nat (length bytes)) <? 0) with false
      by (symmetry; apply Z.ltb_ge; lia).
    rewrite Nat2Z.id, firstn_all. reflexivity. }
  cbn [dbuffs mem].
  split; [ | split; [ | split; [ | split ] ] ].
  - intros i b Hi. apply memcpy_bytes_lookup_in. exact Hi.
  - intros a Ha. apply memcpy_bytes_lookup_out. lia.
  - rewrite advance_all_lookup_in by (assumption || apply elem_of_cons; left; reflexivity).
    rewrite Hd. reflexivity.
  - intros a da Ha Hda.
    rewrite advance_all_lookup_in
      by (assumption || apply elem_of_cons; right; exact Ha).
    rewrite Hda. reflexivity.
  - intros a Ha. apply advance_all_lookup_notin. exact Ha.
Qed.

(** Four literal bytes through the innermost cursor of [st_nested]: the
    three cursors move from 1000 to 1004 and the bytes are in memory. *)
Lemma FR_DBUFF_BYTES_IN_fits_witness :
  exists st',
    FR_DBUFF_BYTES_IN 3 st_nested 7000 [Byte.xde; Byte.xad; Byte.xbe; Byte.xef]
    = Ok (st', Fallthrough)
    /\ dbuffs st' !! 7000 = Some (mk_dbuff 1000 1004 1004 false (Some 6000))
    /\ dbuffs st' !! 6000 = Some (mk_dbuff 1000 1008 1004 false (Some 5000))
    /\ dbuffs st' !! 5000 = Some (mk_dbuff 1000 1010 1004 false None)
    /\ mem st' !! 1000 = Some Byte.xde
    /\ mem st' !! 1003 = Some Byte.xef
    /\ mem st' !! 1004 = Some Byte.xff.
Proof.
  destruct (FR_DBUFF_BYTES_IN_fits [6000; 5000] 3 st_nested 7000
              (mk_dbuff 1000 1004 1000 false (Some 6000))
              [Byte.xde; Byte.xad; Byte.xbe; Byte.xef])
    as (st' & Hrun & Hbytes & Hrest & Hc & Hanc & _).
  - reflexivity.
  - vm_compute. reflexivity.
  - reflexivity.
  - vm_compute. discriminate.
  - cbn. lia.
  - exists st'. split; [ exact Hrun | ].
    split; [ exact Hc | ].
    split; [ apply (Hanc 6000 (mk_dbuff 1000 1008 1000 false (Some 5000)));
             [ apply elem_of_cons; left; reflexivity | reflexivity ] | ].
    split; [ apply (Hanc 5000 (mk_dbuff 1000 1010 1000 false None));
             [ apply elem_of_cons; right; apply elem_of_cons; left; reflexivity
             | reflexivity ] | ].
    split; [ apply (Hbytes 0%nat Byte.xde); reflexivity | ].
    split; [ apply (Hbytes 3%nat Byte.xef); reflexivity | ].
    rewrite (Hrest 1004) by (cbn; lia). reflexivity.
Defined.

(** ** Seeking, then writing *)

(** X15.  After [fr_dbuff_end] the cursor is full: its free space is 0, its
    used count is the length of the window, the memory is untouched, and a
    write of [inlen > 0] bytes returns [- inlen] and changes nothing. *)
Theorem seek_end_fills (fuel : nat) (st : state) (dbuff : Z) (d : fr_dbuff_t)
  (in_ : list Byte.byte) (inlen : Z) :
  dbuffs st !! dbuff = Some d ->
  dbuff_ok d = true ->
  is_const d = false ->
  0 < inlen <= 2 ^ 63 ->
  exists st1 d1,
    fr_dbuff_end st dbuff = Ok (st1, end_ d)
    /\ dbuffs st1 !! dbuff = Some d1
    /\ fr_dbuff_freespace d1 = 0
    /\ fr_dbuff_used d1 = fr_dbuff_len d
    /\ mem st1 = mem st
    /\ fr_dbuff_memcpy_in (S fuel) st1 dbuff in_ inlen = Ok (st1, - inlen).
Proof.
  intros Hd Hok Hc Hin.
  set (d1 := {| start := start d; end_ := end_ d; p := end_ d;
                is_const := is_const d; parent := parent d |}).
  assert (Hz : fr_dbuff_freespace d1 = 0)
    by (unfold fr_dbuff_freespace, d1; cbn [end_ p]; rewrite Z.sub_diag; reflexivity).
  exists (set_dbuff st dbuff d1), d1.
  split; [ unfold fr_dbuff_end, deref; rewrite Hd; reflexivity | ].
  split; [ cbn; apply lookup_insert_eq | ].
  split; [ exact Hz | ].
  split; [ reflexivity | ].
  split; [ reflexivity | ].
  rewrite (memcpy_in_too_long fuel (set_dbuff st dbuff d1) dbuff d1 in_ inlen);
    [ | cbn; apply lookup_insert_eq | exact Hc | lia ].
  rewrite Hz, to_ssize_t_id by (unfold SSIZE_MAX; lia). reflexivity.
Qed.

Lemma seek_end_fills_witness :
  exists st1 d1,
    fr_dbuff_end st_derived 5000 = Ok (st1, 1010)
    /\ dbuffs st1 !! 5000 = Some d1
    /\ fr_dbuff_freespace d1 = 0
    /\ fr_dbuff_used d1 = fr_dbuff_len (mk_dbuff 1000 1010 1004 false None)
    /\ mem st1 = mem st_derived
    /\ fr_dbuff_memcpy_in 1 st1 5000 [Byte.x01] 1 = Ok (st1, - 1).
Proof.
  apply (seek_end_fills 0 st_derived 5000 (mk_dbuff 1000 1010 1004 false None)
           [Byte.x01] 1).
  - reflexivity.
  - reflexivity.
  - reflexivity.
  - lia.
Defined.

(** X16.  After [fr_dbuff_start] a root cursor is written from the start of
    its window again: the seek leaves the memory as it is, and a following
    write of [inlen] bytes, at most the length of the window, returns
    [inlen], stores the bytes from [start] on and leaves [used = inlen],
    wherever the cursor stood before. *)
Theorem seek_start_rewinds (fuel : nat) (st : state) (dbuff : Z) (d : fr_dbuff_t)
  (in_ : list Byte.byte) (inlen : Z) :
  dbuffs st !! dbuff = Some d ->
  dbuff_ok d = true ->
  is_const d = false ->
  parent d = None ->
  0 <= inlen <= fr_dbuff_len d ->
  inlen <= Z.of_nat (length in_) ->
  exists st1 st2 d2,
    fr_dbuff_start st dbuff = Ok (st1, start d)
    /\ mem st1 = mem st
    /\ fr_dbuff_memcpy_in (S fuel) st1 dbuff in_ inlen = Ok (st2, inlen)
    /\ dbuffs st2 !! dbuff = Some d2
    /\ fr_dbuff_used d2 = inlen
    /\ mem st2 = memcpy_bytes (mem st) (start d) (take (Z.to_nat inlen) in_).
Proof.
  intros Hd Hok Hc Hp Hin Hsrc.
  pose proof Hok as Hok'. unfold dbuff_ok, in_window in Hok'. bools.
  assert (Hlen : fr_dbuff_len d = end_ d - start d)
    by (apply to_size_t_id; unfold SSIZE_MAX, SIZE_MOD in *; lia).
  set (d1 := {| start := start d; end_ := end_ d; p := start d;
                is_const := is_const d; parent := parent d |}).
  assert (Hfs : fr_dbuff_freespace d1 = end_ d - start d)
    by (apply to_size_t_id; cbn; unfold SSIZE_MAX, SIZE_MOD in *; lia).
  exists (set_dbuff st dbuff d1),
    {| dbuffs := advance_all inlen [dbuff] (dbuffs (set_dbuff st dbuff d1));
       mem := memcpy_bytes (mem st) (start d) (take (Z.to_nat inlen) in_) |},
    (advance inlen d1).
  split; [ unfold fr_dbuff_start, deref; rewrite Hd; reflexivity | ].
  split; [ reflexivity | ].
  split.
  - apply (memcpy_in_chain [] (S fuel) (set_dbuff st dbuff d1) dbuff d1);
      [ cbn; apply lookup_insert_eq | | exact Hc | lia | exact Hsrc | cbn; lia ].
    cbn. rewrite lookup_insert_eq. unfold dbuff_ok, in_window, d1. cbn.
    rewrite Hp.
    repeat (apply andb_true_intro; split); try reflexivity; apply Z.leb_le; lia.
  - cbn. rewrite lookup_alter_eq, lookup_insert_eq. cbn.
    split; [ reflexivity | ]. split; [ | reflexivity ].
    unfold fr_dbuff_used. cbn. replace (start d + inlen - start d) with inlen by lia.
    apply to_size_t_id. unfold SSIZE_MAX, SIZE_MOD in *. lia.
Qed.

Lemma seek_start_rewinds_witness :
  let d := mk_dbuff 1000 1010 1010 false None in
  exists st1 st2 d2,
    fr_dbuff_start st_full 5000 = Ok (st1, start d)
    /\ mem st1 = mem st_full
    /\ fr_dbuff_memcpy_in 1 st1 5000 [Byte.x01; Byte.x02] 2 = Ok (st2, 2)
    /\ dbuffs st2 !! 5000 = Some d2
    /\ fr_dbuff_used d2 = 2
    /\ mem st2
       = memcpy_bytes (mem st_full) (start d) (take (Z.to_nat 2) [Byte.x01; Byte.x02]).
Proof.
  apply (seek_start_rewinds 0 st_full 5000 (mk_dbuff 1000 1010 1010 false None)
           [Byte.x01; Byte.x02] 2).
  - reflexivity.
  - reflexivity.
  - reflexivity.
  - reflexivity.
  - vm_compute. split; discriminate.
  - cbn. lia.
Defined.

(** ** Fields that initialisation and derivation carry over *)

(** X17.  [_fr_dbuff_init] does not assign [parent].  A cursor object that
    had a parent [q] still has it after [fr_dbuff_init] gave it a new
    window, and a write through it is repeated on [q]: the write returns
    [inlen], the [p] of [q] has grown by [inlen], the byte [i] of the source
    is at the old position of [q] plus [i], and it is at [start + i] of the
    new window as well wherever the copy on [q] did not go over it. *)
Theorem init_keeps_parent (fuel : nat) (st : state) (out q start' len : Z)
  (d0 dq : fr_dbuff_t) (in_ : list Byte.byte) (inlen : Z) :
  dbuffs st !! out = Some d0 ->
  parent d0 = Some q ->
  dbuffs st !! q = Some dq ->
  parent dq = None ->
  is_const dq = false ->
  0 <= len <= SSIZE_MAX ->
  0 <= inlen <= len ->
  inlen <= fr_dbuff_freespace dq ->
  inlen <= Z.of_nat (length in_) ->
  exists st1 st2,
    fr_dbuff_init st out start' false (ByLen len) = Ok st1
    /\ dbuffs st1 !! out
       = Some {| start := start'; end_ := start' + len; p := start';
                 is_const := false; parent := Some q |}
    /\ fr_dbuff_memcpy_in (S (S fuel)) st1 out in_ inlen = Ok (st2, inlen)
    /\ dbuffs st2 !! out
       = Some {| start := start'; end_ := start' + len; p := start' + inlen;
                 is_const := false; parent := Some q |}
    /\ dbuffs st2 !! q
       = Some {| start := start dq; end_ := end_ dq; p := p dq + inlen;
                 is_const := is_const dq; parent := parent dq |}
    /\ (forall (i : nat) (b : Byte.byte),
          in_ !! i = Some b -> Z.of_nat i < inlen ->
          mem st2 !! (p dq + Z.of_nat i) = Some b)
    /\ (forall (i : nat) (b : Byte.byte),
          in_ !! i = Some b -> Z.of_nat i < inlen ->
          start' + Z.of_nat i < p dq \/ p dq + inlen <= start' + Z.of_nat i ->
          mem st2 !! (start' + Z.of_nat i) = Some b).
Proof.
  intros Hd Hp Hq Hpq Hcq Hlen Hin Hroom Hsrc.
  assert (Hne : out <> q) by (intros ->; congruence).
  set (d1 := {| start := start'; end_ := start' + len; p := start';
                is_const := false; parent := Some q |}).
  assert (Hinit : fr_dbuff_init st out start' false (ByLen len)
                  = Ok (set_dbuff st out d1)).
  { unfold fr_dbuff_init, _fr_dbuff_init, deref. rewrite Hd. cbn.
    rewrite (to_size_t_id len) by (unfold SSIZE_MAX, SIZE_MOD in *; lia).
    replace (start' + len <? start') with false by (symmetry; apply Z.ltb_ge; lia).
    rewrite Hp. reflexivity. }
  assert (Hfs : fr_dbuff_freespace d1 = len).
  { unfold fr_dbuff_freespace, d1. cbn.
    replace (start' + len - start') with len by lia.
    apply to_size_t_id. unfold SSIZE_MAX, SIZE_MOD in *. lia. }
  exists (set_dbuff st out d1),
    {| dbuffs := <[q := advance inlen dq]>
                   (<[out := advance inlen d1]> (dbuffs (set_dbuff st out d1)));
       mem := memcpy_bytes
                (memcpy_bytes (mem st) start' (take (Z.to_nat inlen) in_))
                (p dq) (take (Z.to_nat inlen) in_) |}.
  split; [ exact Hinit | ].
  split; [ cbn; apply lookup_insert_eq | ].
  split.
  { rewrite (memcpy_in_step (S fuel) (set_dbuff st out d1) out d1);
      [ | cbn; apply lookup_insert_eq | reflexivity | lia | exact Hsrc ].
    cbn zeta. change (parent d1) with (Some q). cbv beta iota.
    rewrite (memcpy_in_step fuel _ q dq);
      [ | cbn; rewrite !lookup_insert_ne by assumption; exact Hq
        | exact Hcq | exact Hroom | exact Hsrc ].
    cbn zeta. rewrite Hpq. cbn [mbind result_bind].
    rewrite !to_ssize_t_to_size_t_id
      by (rewrite ?to_ssize_t_to_size_t_id; unfold SSIZE_MAX in *; lia).
    reflexivity. }
  cbn [dbuffs mem].
  split; [ rewrite lookup_insert_ne by congruence; apply lookup_insert_eq | ].
  split; [ apply lookup_insert_eq | ].
  split.
  - intros i b Hi Hlt. apply memcpy_bytes_lookup_in.
    rewrite lookup_take_lt by lia. exact Hi.
  - intros i b Hi Hlt Hout.
    rewrite memcpy_bytes_lookup_out by (rewrite length_take; lia).
    apply memcpy_bytes_lookup_in. rewrite lookup_take_lt by lia. exact Hi.
Qed.

(** The child object of [st_derived], at 6000, is given the window of four
    bytes at 1020; its parent field still names the root at 5000, and two
    bytes written through it also land at 1004, where the root stood, and
    move the root to 1006. *)
Lemma init_keeps_parent_witness :
  exists st1 st2,
    fr_dbuff_init st_derived 6000 1020 false (ByLen 4) = Ok st1
    /\ dbuffs st1 !! 6000 = Some (mk_dbuff 1020 1024 1020 false (Some 5000))
    /\ fr_dbuff_memcpy_in 2 st1 6000 [Byte.x0a; Byte.x0b] 2 = Ok (st2, 2)
    /\ dbuffs st2 !! 6000 = Some (mk_dbuff 1020 1024 1022 false (Some 5000))
    /\ dbuffs st2 !! 5000 = Some (mk_dbuff 1000 1010 1006 false None)
    /\ mem st2 !! 1004 = Some Byte.x0a
    /\ mem st2 !! 1005 = Some Byte.x0b
    /\ mem st2 !! 1020 = Some Byte.x0a
    /\ mem st2 !! 1021 = Some Byte.x0b.
Proof.
  destruct (init_keeps_parent 0 st_derived 6000 5000 1020 4
              (mk_dbuff 1000 1008 1004 false (Some 5000))
              (mk_dbuff 1000 1010 1004 false None) [Byte.x0a; Byte.x0b] 2)
    as (st1 & st2 & Hinit & Hd1 & Hrun & Hout & Hq & Hbq & Hbo).
  - reflexivity.
  - reflexivity.
  - reflexivity.
  - reflexivity.
  - reflexivity.
  - vm_compute. split; discriminate.
  - lia.
  - vm_compute. discriminate.
  - cbn. lia.
  - exists st1, st2.
    split; [ exact Hinit | ]. split; [ exact Hd1 | ]. split; [ exact Hrun | ].
    split; [ exact Hout | ]. split; [ exact Hq | ].
    split; [ apply (Hbq 0%nat Byte.x0a); [ reflexivity | cbn; lia ] | ].
    split; [ apply (Hbq 1%nat Byte.x0b); [ reflexivity | cbn; lia ] | ].
    split; [ apply (Hbo 0%nat Byte.x0a); [ reflexivity | cbn; lia | cbn; lia ] | ].
    apply (Hbo 1%nat Byte.x0b); [ reflexivity | cbn; lia | cbn; lia ].
Defined.

(** X18.  Constness is carried over by every derivation.  A cursor made of
    a const cursor by [FR_DBUFF_RESERVE], [FR_DBUFF_MAX] or
    [FR_DBUFF_NO_ADVANCE] is const, and a write through it stops at the
    assertion, before any check of the room and before any byte is
    stored. *)
Theorem const_is_inherited (fuel : nat) (st : state) (dbuff lit n : Z)
  (d : fr_dbuff_t) (in_ : list Byte.byte) (inlen : Z) :
  dbuffs st !! dbuff = Some d ->
  is_const d = true ->
  ('(st1, c) ← FR_DBUFF_RESERVE st dbuff n lit;
   fr_dbuff_memcpy_in (S fuel) st1 c in_ inlen) = AssertFail
  /\ ('(st1, c) ← FR_DBUFF_MAX st dbuff n lit;
      fr_dbuff_memcpy_in (S fuel) st1 c in_ inlen) = AssertFail
  /\ ('(st1, c) ← FR_DBUFF_NO_ADVANCE st dbuff lit;
      fr_dbuff_memcpy_in (S fuel) st1 c in_ inlen) = AssertFail.
Proof.
  intros Hd Hc.
  assert (Hw : forall st1 c d1, dbuffs st1 !! c = Some d1 -> is_const d1 = true ->
                 fr_dbuff_memcpy_in (S fuel) st1 c in_ inlen = AssertFail).
  { intros st1 c d1 Hd1 Hc1. cbn [fr_dbuff_memcpy_in]. unfold deref.
    rewrite Hd1. cbn. rewrite Hc1. reflexivity. }
  assert (Hres : forall r, ('(st1, c) ← FR_DBUFF_RESERVE st dbuff r lit;
                   fr_dbuff_memcpy_in (S fuel) st1 c in_ inlen) = AssertFail).
  { intros r. unfold FR_DBUFF_RESERVE, deref. rewrite Hd.
    cbn [mbind result_bind].
    apply (Hw _ lit (reserve_init dbuff d r)); [ apply lookup_insert_eq | exact Hc ]. }
  split; [ apply Hres | ]. split.
  - unfold FR_DBUFF_MAX, deref. rewrite Hd. cbn [mbind result_bind].
    destruct (fr_dbuff_freespace d >? n); [ apply Hres | ].
    cbn [mbind result_bind]. apply (Hw st dbuff d Hd Hc).
  - unfold FR_DBUFF_NO_ADVANCE, deref. rewrite Hd. cbn [mbind result_bind].
    apply (Hw _ lit d); [ apply lookup_insert_eq | exact Hc ].
Qed.

Lemma const_is_inherited_witness :
  ('(st1, c) ← FR_DBUFF_RESERVE st_const 5000 2 6000;
   fr_dbuff_memcpy_in 1 st1 c [Byte.x01] 1) = AssertFail
  /\ ('(st1, c) ← FR_DBUFF_MAX st_const 5000 2 6000;
      fr_dbuff_memcpy_in 1 st1 c [Byte.x01] 1) = AssertFail
  /\ ('(st1, c) ← FR_DBUFF_NO_ADVANCE st_const 5000 6000;
      fr_dbuff_memcpy_in 1 st1 c [Byte.x01] 1) = AssertFail.
Proof.
  apply (const_is_inherited 0 st_const 5000 6000 2
           (mk_dbuff 1000 1010 1000 true None) [Byte.x01] 1); reflexivity.
Defined.

(** ** The derived cursors satisfy the chain invariants *)

(** X22.  The three derivations establish the invariants that a write
    relies on.  Made of a cursor whose chain satisfies them, at the address
    of a new object, the child of a reservation that fits the window, the
    cursor that a limit yields and the copy of [FR_DBUFF_NO_ADVANCE] each
    have a chain that satisfies them. *)
Theorem derived_chain_inv (st : state) (dbuff lit n : Z) (d : fr_dbuff_t)
  (l : list Z) :
  dbuffs st !! dbuff = Some d ->
  chain_inv (dbuffs st) dbuff l = true ->
  dbuffs st !! lit = None ->
  0 <= n ->
  (n < to_size_t dbuff -> n <= end_ d - start d ->
   exists st1, FR_DBUFF_RESERVE st dbuff n lit = Ok (st1, lit)
     /\ chain_inv (dbuffs st1) lit (dbuff :: l) = true)
  /\ ((n < fr_dbuff_freespace d -> fr_dbuff_freespace d - n < to_size_t dbuff) ->
      exists st1 c l', FR_DBUFF_MAX st dbuff n lit = Ok (st1, c)
        /\ chain_inv (dbuffs st1) c l' = true)
  /\ (exists st1, FR_DBUFF_NO_ADVANCE st dbuff lit = Ok (st1, lit)
        /\ chain_inv (dbuffs st1) lit l = true).
Proof.
  intros Hd Hinv Hlit Hn.
  pose proof (chain_inv_head_ok _ _ _ _ Hinv Hd) as Hok.
  destruct (freespace_ok d Hok) as [Hfs Hrange].
  pose proof Hok as Hok'. unfold dbuff_ok, in_window in Hok'. bools.
  assert (Hfresh : lit ∉ dbuff :: l).
  { intros Hin.
    destruct (chain_member_lookup _ _ _ _ (chain_inv_chain _ _ _ Hinv) Hin) as [x Hx].
    congruence. }
  assert (Hres : forall r, r < to_size_t dbuff -> 0 <= r <= end_ d - start d ->
            FR_DBUFF_RESERVE st dbuff r lit
            = Ok (set_dbuff st lit (reserve_init dbuff d r), lit)
            /\ chain_inv (dbuffs (set_dbuff st lit (reserve_init dbuff d r)))
                 lit (dbuff :: l) = true).
  { intros r Hptr Hr. split.
    - unfold FR_DBUFF_RESERVE, deref. rewrite Hd. reflexivity.
    - apply chain_inv_reserve; assumption. }
  split; [ | split ].
  - intros Hptr Hfit. eexists. apply Hres; lia.
  - intros Hptr. unfold FR_DBUFF_MAX, deref. rewrite Hd. cbn [mbind result_bind].
    destruct (fr_dbuff_freespace d >? n) eqn:E; bools.
    + rewrite (to_size_t_id (fr_dbuff_freespace d - n))
        by (unfold SSIZE_MAX, SIZE_MOD in *; lia).
      eexists _, lit, (dbuff :: l). apply Hres; [ apply Hptr | ]; lia.
    + exists st, dbuff, l. split; [ reflexivity | exact Hinv ].
  - unfold FR_DBUFF_NO_ADVANCE, deref. rewrite Hd. cbn [mbind result_bind].
    eexists. split; [ reflexivity | ].
    apply not_elem_of_cons in Hfresh as [Hne Hfresh].
    unfold set_dbuff. cbn [dbuffs].
    destruct l as [ | q l]; cbn [chain_inv] in Hinv |- *;
      rewrite Hd in Hinv; rewrite lookup_insert_eq; [ exact Hinv | ].
    pose proof Hfresh as Hq. apply not_elem_of_cons in Hq as [Hq _].
    rewrite lookup_insert_ne by congruence.
    rewrite chain_inv_insert_frame by assumption. exact Hinv.
Qed.

Lemma derived_chain_inv_witness :
  let d := mk_dbuff 1000 1008 1004 false (Some 5000) in
  (2 < to_size_t 6000 -> 2 <= end_ d - start d ->
   exists st1, FR_DBUFF_RESERVE st_derived 6000 2 7000 = Ok (st1, 7000)
     /\ chain_inv (dbuffs st1) 7000 (6000 :: [5000]) = true)
  /\ ((2 < fr_dbuff_freespace d -> fr_dbuff_freespace d - 2 < to_size_t 6000) ->
      exists st1 c l', FR_DBUFF_MAX st_derived 6000 2 7000 = Ok (st1, c)
        /\ chain_inv (dbuffs st1) c l' = true)
  /\ (exists st1, FR_DBUFF_NO_ADVANCE st_derived 6000 7000 = Ok (st1, 7000)
        /\ chain_inv (dbuffs st1) 7000 [5000] = true).
Proof.
  apply (derived_chain_inv st_derived 6000 7000 2
           (mk_dbuff 1000 1008 1004 false (Some 5000)) [5000]).
  - reflexivity.
  - vm_compute. reflexivity.
  - reflexivity.
  - lia.
Defined.

(** ** Instances of the invariant lemmas *)

(** The root cursor written, rewound, written beyond its room and moved to
    its end. *)
Lemma run_ops_in_window_witness :
  store_in_window (dbuffs st_ops_done).
Proof.
  apply (run_ops_in_window 1
           [OpWrite 5000 [Byte.x01; Byte.x02; Byte.x03] 3; OpSeekStart 5000;
            OpWrite 5000 (replicate 11 Byte.x00) 11; OpSeekEnd 5000]
           st_root st_ops_done).
  - unfold store_in_window. apply map_Forall_to_list. vm_compute. repeat constructor.
  - vm_compute. reflexivity.
Defined.

Lemma reserve_init_exceeds_witness :
  let d := mk_dbuff 1000 1010 1004 false None in
  start (reserve_init 5000 d 13) = 1000
  /\ end_ (reserve_init 5000 d 13) = 1000
  /\ p (reserve_init 5000 d 13) = 1010 - 13
  /\ 0 <= p (reserve_init 5000 d 13) < 1000
  /\ fr_dbuff_freespace (reserve_init 5000 d 13) = 13 - (1010 - 1000)
  /\ 0 < fr_dbuff_freespace (reserve_init 5000 d 13).
Proof.
  apply (reserve_init_exceeds 5000 (mk_dbuff 1000 1010 1004 false None) 13).
  - reflexivity.
  - vm_compute. reflexivity.
  - cbn. lia.
  - cbn. lia.
Defined.

Lemma memcpy_in_chain_inv_witness :
  exists st',
    fr_dbuff_memcpy_in 3 st_nested 7000 [Byte.x0a; Byte.x0b] 2 = Ok (st', 2)
    /\ chain_inv (dbuffs st') 7000 [6000; 5000] = true.
Proof.
  apply (memcpy_in_chain_inv [6000; 5000] 3 st_nested 7000
           (mk_dbuff 1000 1004 1000 false (Some 6000)) [Byte.x0a; Byte.x0b] 2).
  - reflexivity.
  - vm_compute. reflexivity.
  - reflexivity.
  - vm_compute. split; discriminate.
  - cbn. lia.
  - cbn. lia.
Defined.
